(** * wg_victorinox: a shallow embedding of the WireGuard peer manager

    The program under study is the single Python module [wg_victorinox.py].
    It adds, removes, lists and saves WireGuard peers by spawning the [wg]
    executable, reads and writes key files, renders a client profile as a
    QR code and mails it over SMTP.

    The embedding follows the module function by function.  Python [str]
    values are modelled by [string], one character per code point below
    256.  Everything outside the interpreter (the processes it spawns, the
    SMTP server, the QR encoder, file permissions, the encoding of the
    locale) is a parameter of the development: the program is a state
    transformer over a [World] that records what it did to them. *)

From Stdlib Require Import ZArith Ascii String.
From stdpp Require Import base option list strings gmap.

Local Open Scope string_scope.
Local Open Scope Z_scope.

#[local] Arguments String.append !_ _ / : simpl nomatch.

(** ** Python string primitives *)

Module PyStr.

(** [str.isspace] on one code point below 256: TAB, LF, VT, FF, CR, the
    four separators FS, GS, RS, US, SPACE, NEL and NBSP. *)
Definition isspace (c : ascii) : bool :=
  let n := nat_of_ascii c in
  ((9 <=? n) && (n <=? 13) || (28 <=? n) && (n <=? 32)
   || (n =? 133) || (n =? 160))%nat.

Definition LF : ascii := ascii_of_nat 10.
Definition CR : ascii := ascii_of_nat 13.
Definition TAB : ascii := ascii_of_nat 9.

Definition is_empty (s : string) : bool :=
  match s with EmptyString => true | String _ _ => false end.

(** [s.lstrip()] *)
Fixpoint lstrip (s : string) : string :=
  match s with
  | EmptyString => EmptyString
  | String c s' => if isspace c then lstrip s' else s
  end.

(** [s.rstrip()] *)
Fixpoint rstrip (s : string) : string :=
  match s with
  | EmptyString => EmptyString
  | String c s' =>
      let r := rstrip s' in
      if isspace c && is_empty r then EmptyString else String c r
  end.

(** [s.strip()] *)
Definition strip (s : string) : string := rstrip (lstrip s).

(** [s.split()] with no separator: maximal runs of non-space characters.
    [cur] is the word being read. *)
Fixpoint split_from (cur : string) (s : string) : list string :=
  match s with
  | EmptyString => if is_empty cur then [] else [cur]
  | String c s' =>
      if isspace c
      then (if is_empty cur then split_from EmptyString s'
            else cur :: split_from EmptyString s')
      else split_from (cur +:+ String c EmptyString) s'
  end.

Definition split (s : string) : list string := split_from EmptyString s.

(** [s.split(sep)] for a one-character separator.  The result is never
    empty: the empty text splits into one empty field. *)
Fixpoint split_on (sep : ascii) (s : string) : list string :=
  match s with
  | EmptyString => [EmptyString]
  | String c s' =>
      if Ascii.eqb c sep then EmptyString :: split_on sep s'
      else match split_on sep s' with
           | h :: t => String c h :: t
           | [] => [String c EmptyString]
           end
  end.

(** [s[:n]] for [n >= 0]. *)
Fixpoint prefix (n : nat) (s : string) : string :=
  match n, s with
  | S n', String c s' => String c (prefix n' s')
  | _, _ => EmptyString
  end.

(** Text-mode reading ([open(path, "r")], [newline=None]): every CR LF
    and every lone CR arrives as LF.  [after_cr] tells that the previous
    character was a CR, already delivered as LF. *)
Fixpoint universal_newlines (after_cr : bool) (s : string) : string :=
  match s with
  | EmptyString => EmptyString
  | String c s' =>
      if Ascii.eqb c CR then String LF (universal_newlines true s')
      else if Ascii.eqb c LF && after_cr then universal_newlines false s'
      else String c (universal_newlines false s')
  end.

(** [c in s] for a character. *)
Fixpoint contains (c : ascii) (s : string) : bool :=
  match s with
  | EmptyString => false
  | String c' s' => Ascii.eqb c' c || contains c s'
  end.

(** No character of [s] is white space. *)
Fixpoint spaceless (s : string) : bool :=
  match s with
  | EmptyString => true
  | String c s' => negb (isspace c) && spaceless s'
  end.

(** A word: what [split] returns as one element. *)
Definition word (s : string) : bool := negb (is_empty s) && spaceless s.

(** [" ".join(ws)] *)
Fixpoint unwords (ws : list string) : string :=
  match ws with
  | [] => EmptyString
  | [w] => w
  | w :: rest => w +:+ String " " (unwords rest)
  end.

End PyStr.

Import PyStr.

Definition nl : string := String LF EmptyString.

(** ** What the program exchanges with the outside world *)

(** One spawned process: its argument vector and what is fed to its
    standard input ([None]: inherited, nothing written). *)
Record Call := { argv : list string; input : option string }.

(** The parts of the MIME message that the program sets. *)
Record Message := {
  msg_subject : string;
  msg_from : string;
  msg_to : string;
  msg_text : string;
  msg_image : string
}.

(** The calls made on an [smtplib.SMTP] object; [Quit] is the one issued
    when its [with] block is left. *)
Inductive SmtpOp :=
| Connect (host : string) (port : Z)
| Ehlo
| StartTls
| Login (user password : string)
| SendMail (from_addr to_addr : string) (msg : Message)
| Quit.

(** The exceptions that can leave the functions of the module. *)
Inductive exn :=
| CalledProcessError (returncode : Z) (cmd : list string)
| FileNotFoundError (filename : string)
| OSError (filename : string)
| UnicodeDecodeError
| IndexError
| DataOverflowError
| SMTPException (op : SmtpOp).

(** What Python calls truthy for an optional string: neither [None] nor
    the empty string. *)
Definition truthy (o : option string) : bool :=
  match o with
  | Some (String _ _) => true
  | _ => false
  end.

(** [json.dumps] of a string, with the default [ensure_ascii=True]:
    backslash and the double quote are escaped, the five short escapes are
    used, every other character outside SPACE..TILDE is written in the
    four-digit lower-case hexadecimal form. *)
Module Json.

Definition DQUOTE : ascii := ascii_of_nat 34.
Definition BACKSLASH : ascii := ascii_of_nat 92.

Definition hex_digit (n : nat) : ascii :=
  if (n <? 10)%nat then ascii_of_nat (48 + n) else ascii_of_nat (87 + n).

Definition escape_char (c : ascii) : string :=
  let n := nat_of_ascii c in
  if (n =? 34)%nat then String BACKSLASH (String DQUOTE EmptyString)
  else if (n =? 92)%nat then String BACKSLASH (String BACKSLASH EmptyString)
  else if (n =? 8)%nat then String BACKSLASH "b"
  else if (n =? 12)%nat then String BACKSLASH "f"
  else if (n =? 10)%nat then String BACKSLASH "n"
  else if (n =? 13)%nat then String BACKSLASH "r"
  else if (n =? 9)%nat then String BACKSLASH "t"
  else if ((32 <=? n) && (n <=? 126))%nat then String c EmptyString
  else String BACKSLASH
         ("u00" +:+ String (hex_digit (n / 16))
                      (String (hex_digit (n mod 16)) EmptyString)).

Fixpoint escape (s : string) : string :=
  match s with
  | EmptyString => EmptyString
  | String c s' => escape_char c +:+ escape s'
  end.

Definition dumps_str (s : string) : string :=
  String DQUOTE (escape s +:+ String DQUOTE EmptyString).

(** [", ".join(items)] *)
Fixpoint join (items : list string) : string :=
  match items with
  | [] => EmptyString
  | [x] => x
  | x :: rest => x +:+ ", " +:+ join rest
  end.

(** [json.dumps] of a list of strings. *)
Definition dumps (l : list string) : string :=
  "[" +:+ join (dumps_str <$> l) +:+ "]".

(** Reading back an array of strings in the layout that [dumps] writes
    (a subset of what [json.loads] accepts): one pass over the text, the
    state telling what is expected next, [items] the strings read so far
    and [cur] the string being read.  Escapes above U+00FF and raw control
    characters are refused. *)
Inductive state :=
| Open | First | InStr | Esc | Hex (k v : nat) | After | Sep1 | Sep2 | Closed.

Definition hex_value (c : ascii) : option nat :=
  let n := nat_of_ascii c in
  if ((48 <=? n) && (n <=? 57))%nat then Some (n - 48)%nat
  else if ((97 <=? n) && (n <=? 102))%nat then Some (n - 87)%nat
  else if ((65 <=? n) && (n <=? 70))%nat then Some (n - 55)%nat
  else None.

Definition short_escape (e : ascii) : option ascii :=
  let n := nat_of_ascii e in
  if (n =? 34)%nat then Some DQUOTE
  else if (n =? 92)%nat then Some BACKSLASH
  else if (n =? 47)%nat then Some (ascii_of_nat 47)
  else if (n =? 98)%nat then Some (ascii_of_nat 8)
  else if (n =? 102)%nat then Some (ascii_of_nat 12)
  else if (n =? 110)%nat then Some (ascii_of_nat 10)
  else if (n =? 114)%nat then Some (ascii_of_nat 13)
  else if (n =? 116)%nat then Some (ascii_of_nat 9)
  else None.

(** One character: the new state, items and current string, or [None]
    when the character is not allowed there.  [Hex k v]: [k] of the four
    hexadecimal digits of an escape are read, their value is [v]. *)
Definition step (st : state) (items : list string) (cur : string) (c : ascii)
  : option (state * list string * string) :=
  match st with
  | Open => if Ascii.eqb c "[" then Some (First, items, cur) else None
  | First =>
      if Ascii.eqb c DQUOTE then Some (InStr, items, EmptyString)
      else if Ascii.eqb c "]" then Some (Closed, items, cur)
      else None
  | InStr =>
      if Ascii.eqb c DQUOTE then Some (After, (items ++ [cur])%list, EmptyString)
      else if Ascii.eqb c BACKSLASH then Some (Esc, items, cur)
      else if (nat_of_ascii c <? 32)%nat then None
      else Some (InStr, items, cur +:+ String c EmptyString)
  | Esc =>
      if Ascii.eqb c "u" then Some (Hex 0 0, items, cur)
      else match short_escape c with
           | Some ch => Some (InStr, items, cur +:+ String ch EmptyString)
           | None => None
           end
  | Hex k v =>
      match hex_value c with
      | None => None
      | Some d =>
          let v' := (16 * v + d)%nat in
          if (k <? 3)%nat then Some (Hex (S k) v', items, cur)
          else if (v' <? 256)%nat
               then Some (InStr, items,
                          cur +:+ String (ascii_of_nat v') EmptyString)
               else None
      end
  | After =>
      if Ascii.eqb c "]" then Some (Closed, items, cur)
      else if Ascii.eqb c "," then Some (Sep1, items, cur)
      else None
  | Sep1 => if Ascii.eqb c " " then Some (Sep2, items, cur) else None
  | Sep2 =>
      if Ascii.eqb c DQUOTE then Some (InStr, items, EmptyString) else None
  | Closed => None
  end.

Fixpoint loads_from (st : state) (items : list string) (cur : string)
    (s : string) : option (list string) :=
  match s with
  | EmptyString => match st with Closed => Some items | _ => None end
  | String c s' =>
      match step st items cur c with
      | Some (st', items', cur') => loads_from st' items' cur' s'
      | None => None
      end
  end.

Definition loads (s : string) : option (list string) :=
  loads_from Open [] EmptyString s.

End Json.

(** ** The program *)

Section Program.

(** State of whatever the spawned executables act on: the WireGuard
    interfaces, the source of key material. *)
Variable Dev : Type.

(** Running a process: from its call, the files it can read and the
    device state, to its exit status, its standard output (the text it
    decodes to) and the new device state.  The executables are taken to
    exist: a process that cannot be started is outside the model. *)
Variable surface : Call → gmap string string → Dev → Z * string * Dev.

(** Whether a path can be opened for writing and the write carried to
    its end. *)
Variable writable : string → bool.

(** What becomes of a file whose write fails: [None] when the path cannot
    even be opened, so that the file is untouched; [Some rest] when it was
    opened, hence emptied, and the write then failed, leaving [rest]. *)
Variable torn : string → string → option string.

(** Whether an existing file can be opened for reading. *)
Variable readable : string → bool.

(** Text-mode decoding of the bytes of a file in the encoding of the
    locale; [None] when the bytes are not valid in it. *)
Variable decode : string → option string.

(** The QR encoder, giving the PNG bytes of the symbol; [None] when the
    text does not fit the largest symbol. *)
Variable qr_png : string → option string.

(** Whether the mail server accepts an operation, given the operations
    attempted so far. *)
Variable smtp_accepts : list SmtpOp → SmtpOp → bool.

Record World := {
  fs : gmap string string;        (* files: path to content *)
  dev : Dev;
  environ : gmap string string;   (* the process environment *)
  spawned : list Call;            (* processes run, oldest first *)
  encoded : list string;          (* texts given to the QR encoder *)
  mail : list SmtpOp              (* SMTP operations attempted *)
}.

Definition set_fs (f : gmap string string) (w : World) : World :=
  {| fs := f; dev := dev w; environ := environ w; spawned := spawned w;
     encoded := encoded w; mail := mail w |}.

Definition ran (c : Call) (d : Dev) (w : World) : World :=
  {| fs := fs w; dev := d; environ := environ w;
     spawned := spawned w ++ [c]; encoded := encoded w; mail := mail w |}.

Definition log_encoded (t : string) (w : World) : World :=
  {| fs := fs w; dev := dev w; environ := environ w; spawned := spawned w;
     encoded := encoded w ++ [t]; mail := mail w |}.

Definition log_mail (op : SmtpOp) (w : World) : World :=
  {| fs := fs w; dev := dev w; environ := environ w; spawned := spawned w;
     encoded := encoded w; mail := mail w ++ [op] |}.

(** Computations: a result or an exception, and the world they leave. *)
Definition M (A : Type) : Type := World → (exn + A) * World.

Definition ret {A} (a : A) : M A := λ w, (inr a, w).
Definition raise {A} (e : exn) : M A := λ w, (inl e, w).
Definition bind {A B} (m : M A) (k : A → M B) : M B :=
  λ w, match m w with
       | (inr a, w') => k a w'
       | (inl e, w') => (inl e, w')
       end.

#[local] Instance M_ret : MRet M := @ret.
#[local] Instance M_bind : MBind M := λ A B k m, bind m k.

(** *** Primitives *)

Definition spawn (c : Call) : M (Z * string) :=
  λ w, let '(code, out, d) := surface c (fs w) (dev w) in
       (inr (code, out), ran c d w).

(** [subprocess.check_output(args, input=...).decode()] *)
Definition check_output (args : list string) (inp : option string) : M string :=
  '(code, out) ← spawn {| argv := args; input := inp |};
  if code =? 0 then ret out else raise (CalledProcessError code args).

(** [subprocess.run(args, check=True)] *)
Definition run_check (args : list string) : M unit :=
  '(code, _) ← spawn {| argv := args; input := None |};
  if code =? 0 then ret tt else raise (CalledProcessError code args).

(** [with open(path, "r") as f: f.read()]: the file must exist and be
    readable; its bytes are decoded, which can fail, and the line ends of
    the decoded text are normalised. *)
Definition read_text (path : string) : M string :=
  λ w, match fs w !! path with
       | Some b =>
           if readable path then
             match decode b with
             | Some text => (inr (universal_newlines false text), w)
             | None => (inl UnicodeDecodeError, w)
             end
           else (inl (OSError path), w)
       | None => (inl (FileNotFoundError path), w)
       end.

(** [with open(path, "rb") as f: f.read()] *)
Definition read_bytes (path : string) : M string :=
  λ w, match fs w !! path with
       | Some b =>
           if readable path then (inr b, w) else (inl (OSError path), w)
       | None => (inl (FileNotFoundError path), w)
       end.

(** [with open(path, "w") as f: f.write(content)], also [img.save(path)].
    Opening creates the file or empties it; then the content is written.
    When the path cannot be opened nothing changes; when the write fails
    after the opening, the old content is gone and the file holds what
    was written before the failure.  A text is stored character for
    character; on the POSIX hosts where [wg] runs, text-mode writing
    leaves line ends as they are. *)
Definition write_file (path content : string) : M unit :=
  λ w, if writable path then (inr tt, set_fs (<[path := content]> (fs w)) w)
       else match torn path content with
            | Some rest =>
                (inl (OSError path), set_fs (<[path := rest]> (fs w)) w)
            | None => (inl (OSError path), w)
            end.

(** Encoding a text as a QR symbol. *)
Definition qr_make (text : string) : M string :=
  λ w, match qr_png text with
       | Some png => (inr png, log_encoded text w)
       | None => (inl DataOverflowError, log_encoded text w)
       end.

Definition smtp_do (op : SmtpOp) : M unit :=
  λ w, if smtp_accepts (mail w) op then (inr tt, log_mail op w)
       else (inl (SMTPException op), log_mail op w).

(** [with smtplib.SMTP(host, port) as smtp: body] *)
Definition with_smtp (host : string) (port : Z) (body : M unit) : M unit :=
  λ w, match smtp_do (Connect host port) w with
       | (inl e, w1) => (inl e, w1)
       | (inr _, w1) =>
           let '(r, w2) := body w1 in
           match smtp_do Quit w2 with
           | (inl e, w3) => (inl e, w3)
           | (inr _, w3) => (r, w3)
           end
       end.

(** *** [add_peer], lines 14 to 73

    The body is cut into the three steps it runs in sequence: key
    material (lines 15 to 25), the [wg set] command (27 to 31) and the
    export of the client configuration (33 to 73). *)

(** Lines 15 to 25; returns [(privkey, pubkey)]. *)
Definition provision (private_key_file : string) (pubkey : option string)
  : M (string * string) :=
  if negb (truthy pubkey) then
    out ← check_output ["wg"; "genkey"] None;
    let privkey := strip out in
    out' ← check_output ["wg"; "pubkey"] (Some privkey);
    let pubkey := strip out' in
    write_file private_key_file privkey;;
    mret (privkey, pubkey)
  else
    text ← read_text private_key_file;
    let privkey := strip text in
    mret (privkey, default EmptyString pubkey).

Definition set_peer_cmd (ip_address private_key_file wg_interface pubkey : string)
  : string :=
  let cmd := "sudo wg set " +:+ wg_interface +:+ " peer " +:+ pubkey
             +:+ " allowed-ips " +:+ ip_address +:+ "/24" in
  cmd +:+ (" --private-key " +:+ private_key_file).

(** Lines 27 to 31. *)
Definition authorize (ip_address private_key_file wg_interface pubkey : string)
  : M unit :=
  run_check (split (set_peer_cmd ip_address private_key_file wg_interface pubkey)).

(** The text built on lines 35 to 39, for a recipient. *)
Definition qr_data_mail (wg_interface privkey pubkey ip_address : string) : string :=
  let qr_data := "interface " +:+ wg_interface +:+ nl in
  let qr_data := qr_data +:+ ("private_key " +:+ privkey +:+ nl) in
  let qr_data := qr_data +:+ ("peer " +:+ pubkey +:+ nl) in
  let qr_data := qr_data +:+ ("allowed_ips " +:+ ip_address +:+ "/32" +:+ nl) in
  qr_data +:+ ("endpoint <server_ip_address>:51820" +:+ nl).

(** The text built on lines 66 to 69, without a recipient. *)
Definition qr_data_local (wg_interface privkey pubkey ip_address : string) : string :=
  let qr_data := "interface " +:+ wg_interface +:+ nl in
  let qr_data := qr_data +:+ ("private_key " +:+ privkey +:+ nl) in
  let qr_data := qr_data +:+ ("peer " +:+ pubkey +:+ nl) in
  qr_data +:+ ("allowed_ips " +:+ ip_address +:+ "/32" +:+ nl).

Definition image_filename (output_dir : option string) (pubkey : string) : string :=
  if truthy output_dir
  then default EmptyString output_dir +:+ "/wg_client_" +:+ prefix 8 pubkey +:+ ".png"
  else "wg_client_" +:+ prefix 8 pubkey +:+ ".png".

Definition mail_message (email qr_data image : string) : Message :=
  {| msg_subject := "WireGuard client configuration";
     msg_from := "your_email@example.com";
     msg_to := email;
     msg_text := qr_data;
     msg_image := image |}.

(** Lines 41 to 63, once [qr_data] is built. *)
Definition deliver (qr_data pubkey : string) (output_dir : option string)
    (email : string) : M unit :=
  img ← qr_make qr_data;
  let filename := image_filename output_dir pubkey in
  write_file filename img;;
  data ← read_bytes filename;
  let msg := mail_message email qr_data data in
  with_smtp "smtp.gmail.com" 587
    (smtp_do Ehlo;;
     smtp_do StartTls;;
     smtp_do (Login "your_email@example.com" "your_email_password");;
     smtp_do (SendMail "your_email@example.com" email msg)).

(** Lines 33 to 73. *)
Definition export (wg_interface privkey pubkey ip_address : string)
    (output_dir email : option string) : M unit :=
  if truthy email then
    deliver (qr_data_mail wg_interface privkey pubkey ip_address) pubkey
      output_dir (default EmptyString email)
  else
    qr_make (qr_data_local wg_interface privkey pubkey ip_address);;
    mret tt.

Definition add_peer (ip_address private_key_file wg_interface : string)
    (pubkey output_dir email : option string) : M unit :=
  '(privkey, pubkey) ← provision private_key_file pubkey;
  authorize ip_address private_key_file wg_interface pubkey;;
  export wg_interface privkey pubkey ip_address output_dir email.

(** *** [remove_peer], lines 76 to 80 *)

Definition remove_peer_cmd (pubkey wg_interface : string) : string :=
  "sudo wg set " +:+ wg_interface +:+ " peer " +:+ pubkey +:+ " remove".

Definition remove_peer (pubkey wg_interface : string) : M unit :=
  run_check (split (remove_peer_cmd pubkey wg_interface)).

(** *** [list_peers], lines 83 to 91 *)

(** The comprehension of line 89: the second tab-separated field of every
    line, [IndexError] at the first line that has none. *)
Fixpoint second_fields (lines : list string) : exn + list string :=
  match lines with
  | [] => inr []
  | line :: rest =>
      match split_on TAB line !! 1%nat with
      | None => inl IndexError
      | Some key =>
          match second_fields rest with
          | inl e => inl e
          | inr keys => inr (key :: keys)
          end
      end
  end.

Definition parse_peers (output : string) : exn + list string :=
  second_fields (split_on LF (strip output)).

Definition list_peers (wg_interface : string) : M (list string) :=
  let cmd := "sudo wg show " +:+ wg_interface +:+ " peers" in
  output ← check_output (split cmd) None;
  match parse_peers output with
  | inl e => raise e
  | inr pubkeys => mret pubkeys
  end.

(** *** [save_peers], lines 94 to 99 *)

Definition save_peers (wg_interface filename : string) : M unit :=
  peer_list ← list_peers wg_interface;
  write_file filename (Json.dumps peer_list).

(** *** [main], lines 102 to 138 *)

(** The namespace that [parser.parse_args()] returns: the required
    sub-command and the positional arguments of its sub-parser, each a
    string. *)
Inductive Namespace :=
| NsAdd (pubkey ip_address private_key_file wg_interface : string)
| NsRemove (pubkey wg_interface : string)
| NsList (wg_interface : string)
| NsSave (wg_interface filename : string).

Definition command (args : Namespace) : string :=
  match args with
  | NsAdd _ _ _ _ => "add"
  | NsRemove _ _ => "remove"
  | NsList _ => "list"
  | NsSave _ _ => "save"
  end.

(** The dispatch of lines 133 to 138.  The call for [add] passes its four
    arguments by position, so they land on [ip_address],
    [private_key_file], [wg_interface] and [pubkey] in that order.  The
    [list] branch binds the built-in [list] to a local name and calls
    nothing.  No branch tests for [save]. *)
Definition main (args : Namespace) : M unit :=
  match args with
  | NsAdd pubkey ip_address private_key_file wg_interface =>
      add_peer pubkey ip_address private_key_file (Some wg_interface) None None
  | NsRemove pubkey wg_interface => remove_peer pubkey wg_interface
  | NsList _ => mret tt
  | NsSave _ _ => mret tt
  end.

(** The exit status of the interpreter: 0 when [main] returns, 1 when an
    exception leaves it. *)
Definition exit_status {A} (r : exn + A) : Z :=
  match r with inr _ => 0 | inl _ => 1 end.

End Program.

Arguments fs {Dev} _.
Arguments dev {Dev} _.
Arguments environ {Dev} _.
Arguments spawned {Dev} _.
Arguments encoded {Dev} _.
Arguments mail {Dev} _.
Arguments exit_status {A} _.

(** ** Vocabulary of the properties *)

(** The process that [list_peers] starts, and the one of [remove_peer]. *)
Definition show_call (wg_interface : string) : Call :=
  {| argv := split ("sudo wg show " +:+ wg_interface +:+ " peers");
     input := None |}.

Definition remove_call (pubkey wg_interface : string) : Call :=
  {| argv := split (remove_peer_cmd pubkey wg_interface); input := None |}.

(** Occurrences of a character; the number of lines of a text that ends
    every line with LF is its number of LF. *)
Fixpoint count (c : ascii) (s : string) : nat :=
  match s with
  | EmptyString => 0%nat
  | String c' s' => ((if Ascii.eqb c' c then 1 else 0) + count c s')%nat
  end.

(** The credentials presented in a sequence of SMTP operations. *)
Fixpoint logins (ops : list SmtpOp) : list (string * string) :=
  match ops with
  | [] => []
  | Login user password :: rest => (user, password) :: logins rest
  | _ :: rest => logins rest
  end.

(** An SMTP operation whose server, account and sender are the literals
    of lines 58 to 63. *)
Definition embedded (op : SmtpOp) : Prop :=
  match op with
  | Connect host port => host = "smtp.gmail.com" ∧ port = 587
  | Login user password =>
      user = "your_email@example.com" ∧ password = "your_email_password"
  | SendMail from_addr _ msg =>
      from_addr = "your_email@example.com"
      ∧ msg_from msg = "your_email@example.com"
  | _ => True
  end.

(** The session of lines 58 to 63, when every step is accepted. *)
Definition full_session (email : string) (msg : Message) : list SmtpOp :=
  [Connect "smtp.gmail.com" 587; Ehlo; StartTls;
   Login "your_email@example.com" "your_email_password";
   SendMail "your_email@example.com" email msg; Quit].

(** A control surface on which removing a peer is a set operation:
    [peers_on d i] is the ordered peer list of interface [i] in state [d],
    [None] when there is no such interface.  On an existing interface the
    [remove] command exits with 0 and leaves the peers other than the
    named one, in their order; other interfaces are untouched. *)
Definition set_removal {Dev : Type}
    (surface : Call → gmap string string → Dev → Z * string * Dev)
    (peers_on : Dev → string → option (list string)) : Prop :=
  ∀ files d i pk l,
    word i = true → word pk = true → peers_on d i = Some l →
    ∃ out d',
      surface {| argv := ["sudo"; "wg"; "set"; i; "peer"; pk; "remove"];
                 input := None |} files d = (0, out, d')
      ∧ peers_on d' i = Some (filter (λ p, p ≠ pk) l)
      ∧ ∀ j, j ≠ i → peers_on d' j = peers_on d j.

(** ** A reference environment

    A small control surface with set semantics, used to run the program on
    concrete inputs.  An interface holds an ordered list of public keys;
    [wg show] prints one line per peer, the interface name and the key
    separated by a tab. *)

Module Ref.

Record Dev := {
  links : list (string * list string);  (* interface, its peers *)
  keys : list string                      (* private keys still to come *)
}.

Fixpoint peers_of (ls : list (string * list string)) (i : string)
  : option (list string) :=
  match ls with
  | [] => None
  | (j, ps) :: rest => if String.eqb j i then Some ps else peers_of rest i
  end.

Fixpoint update (ls : list (string * list string)) (i : string)
    (f : list string → list string) : list (string * list string) :=
  match ls with
  | [] => []
  | (j, ps) :: rest =>
      if String.eqb j i then (j, f ps) :: rest else (j, ps) :: update rest i f
  end.

Definition without (pk : string) (ps : list string) : list string :=
  filter (λ p, p ≠ pk) ps.

Definition with_peer (pk : string) (ps : list string) : list string :=
  if bool_decide (pk ∈ ps) then ps else ps ++ [pk].

Fixpoint show_lines (i : string) (ps : list string) : string :=
  match ps with
  | [] => EmptyString
  | p :: rest => i +:+ String TAB p +:+ nl +:+ show_lines i rest
  end.

Definition on_link (d : Dev) (i : string) (f : list string → list string)
  : Z * string * Dev :=
  match peers_of (links d) i with
  | Some _ => (0, EmptyString, {| links := update (links d) i f; keys := keys d |})
  | None => (1, EmptyString, d)
  end.

(** What the real tool prints for one interface: one key per line. *)
Fixpoint show_plain (i : string) (ps : list string) : string :=
  match ps with
  | [] => EmptyString
  | p :: rest => p +:+ nl +:+ show_plain i rest
  end.

Definition surface_with (show : string → list string → string)
    (c : Call) (files : gmap string string) (d : Dev) : Z * string * Dev :=
  match argv c, input c with
  | ["wg"; "genkey"], _ =>
      match keys d with
      | k :: ks => (0, k +:+ nl, {| links := links d; keys := ks |})
      | [] => (1, EmptyString, d)
      end
  | ["wg"; "pubkey"], Some priv => (0, "pub-" +:+ priv +:+ nl, d)
  | ["sudo"; "wg"; "set"; i; "peer"; pk; "allowed-ips"; _; "--private-key"; _], _ =>
      on_link d i (with_peer pk)
  | ["sudo"; "wg"; "set"; i; "peer"; pk; "remove"], _ =>
      on_link d i (without pk)
  | ["sudo"; "wg"; "show"; i; "peers"], _ =>
      match peers_of (links d) i with
      | Some ps => (0, show i ps, d)
      | None => (1, EmptyString, d)
      end
  | _, _ => (2, EmptyString, d)
  end.

Definition surface := surface_with show_lines.
Definition surface_plain := surface_with show_plain.

Definition peers_on (d : Dev) (i : string) : option (list string) :=
  peers_of (links d) i.

Definition writable (path : string) : bool := true.
Definition torn (path content : string) : option string := None.
Definition readable (path : string) : bool := true.

(** UTF-8, for the code points below 256 that the texts of this model
    hold: a byte below 128 is itself, the lead bytes C2 and C3 take one
    continuation byte; anything else is refused. *)
Fixpoint decode (b : string) : option string :=
  match b with
  | EmptyString => Some EmptyString
  | String c b' =>
      let n := nat_of_ascii c in
      if (n <? 128)%nat then String c <$> decode b'
      else if ((n =? 194) || (n =? 195))%nat then
        match b' with
        | String c' b'' =>
            let m := nat_of_ascii c' in
            if ((128 <=? m) && (m <=? 191))%nat
            then String (ascii_of_nat ((n - 192) * 64 + (m - 128)))
                   <$> decode b''
            else None
        | EmptyString => None
        end
      else None
  end.

(** A disk that takes no write: every file can be opened, and is left
    empty. *)
Definition full_disk (path : string) : bool := false.
Definition emptied (path content : string) : option string := Some EmptyString.

Definition qr_png (text : string) : option string :=
  if (String.length text <=? 2331)%nat then Some ("PNG " +:+ text) else None.

(** A server that takes everything, and one that refuses to log in. *)
Definition smtp_up (h : list SmtpOp) (op : SmtpOp) : bool := true.

Definition world_env (env files : gmap string string) (d : Dev) : World Dev :=
  {| fs := files; dev := d; environ := env; spawned := []; encoded := [];
     mail := [] |}.

Definition world (files : gmap string string) (d : Dev) : World Dev :=
  world_env ∅ files d.

Definition wg0 (ps : list string) (ks : list string) : Dev :=
  {| links := [("wg0", ps)]; keys := ks |}.

End Ref.

(** The scenario of the specification: interface wg0 without peers, one
    private key to come, no file. *)
Definition fresh : World Ref.Dev := Ref.world ∅ (Ref.wg0 [] ["PRIV"]).

(** A world whose key file holds a key followed by a line end. *)
Definition with_key_file : World Ref.Dev :=
  Ref.world {[ "/tmp/peerA.key" := "PRIV" +:+ nl ]} (Ref.wg0 [] []).

(** Two configurations of the environment that name different accounts. *)
Definition env_a : gmap string string :=
  {[ "SMTP_USER" := "alice@example.org"; "SMTP_PASSWORD" := "alpha" ]}.
Definition env_b : gmap string string :=
  {[ "SMTP_USER" := "bob@example.org"; "SMTP_PASSWORD" := "beta" ]}.

(** Interface wg0 with two peers; the same with a snapshot file already
    there; and wg0 without peers. *)
Definition two_peers : World Ref.Dev := Ref.world ∅ (Ref.wg0 ["A="; "B="] []).
Definition two_peers_saved : World Ref.Dev :=
  Ref.world {[ "/tmp/peers.json" := "old" ]} (Ref.wg0 ["A="; "B="] []).
Definition no_peers : World Ref.Dev := Ref.world ∅ (Ref.wg0 [] []).

(** Two peers, a snapshot file and a key file. *)
Definition snapshot_and_key : World Ref.Dev :=
  Ref.world {[ "/tmp/peers.json" := "old"; "/tmp/peerA.key" := "PRIV" ]}
    (Ref.wg0 ["A="; "B="] []).

(** The message that the delivery of the scenario sends. *)
Definition scenario_text : string :=
  qr_data_mail "wg0" "PRIV" "pub-PRIV" "10.0.0.5".

(** A text of 4096 characters. *)
Fixpoint repeat_text (n : nat) (s : string) : string :=
  match n with
  | O => EmptyString
  | S n' => s +:+ repeat_text n' s
  end.
Definition long_text : string := repeat_text 512 "interfac".

(** ** Facts about the string primitives *)

Section PyStrFacts.

Example strip_both_ends :
  strip ("  ab c " +:+ nl) = "ab c" ∧ strip (" " +:+ nl) = EmptyString.
Proof. by vm_compute. Qed.

Example split_runs :
  split ("  sudo wg   set" +:+ nl +:+ "wg0 ") = ["sudo"; "wg"; "set"; "wg0"]
  ∧ split " " = [].
Proof. by vm_compute. Qed.

Example split_on_fields :
  split_on "," "a,,b," = ["a"; EmptyString; "b"; EmptyString]
  ∧ split_on "," EmptyString = [EmptyString].
Proof. by vm_compute. Qed.

Example universal_newlines_crlf :
  universal_newlines false
    ("a" +:+ String CR nl +:+ "b" +:+ String CR "c" +:+ nl)
  = "a" +:+ nl +:+ "b" +:+ nl +:+ "c" +:+ nl.
Proof. by vm_compute. Qed.

Example dumps_two_keys :
  Json.dumps ["A="; "B" +:+ nl]
  = "[" +:+ String Json.DQUOTE "A=" +:+ String Json.DQUOTE ", "
    +:+ String Json.DQUOTE "B" +:+ String Json.BACKSLASH "n"
    +:+ String Json.DQUOTE "]"
  ∧ Json.dumps [] = "[]".
Proof. by vm_compute. Qed.

Lemma append_empty_r (s : string) : s +:+ EmptyString = s.
Proof. induction s as [|c s IH]; [done | simpl; f_equal; exact IH]. Qed.

Lemma append_assoc (a b c : string) : (a +:+ b) +:+ c = a +:+ (b +:+ c).
Proof. induction a as [|x a IH]; [done | simpl; f_equal; exact IH]. Qed.

Lemma is_empty_true (s : string) : is_empty s = true ↔ s = EmptyString.
Proof. destruct s; simpl; split; congruence. Qed.

Lemma is_empty_append (a b : string) :
  is_empty (a +:+ b) = is_empty a && is_empty b.
Proof. by destruct a. Qed.

Lemma spaceless_append (a b : string) :
  spaceless (a +:+ b) = spaceless a && spaceless b.
Proof.
  induction a as [|c a IH]; simpl; [done |].
  rewrite IH. by rewrite andb_assoc.
Qed.

Lemma word_spaceless (s : string) : word s = true → spaceless s = true.
Proof. unfold word. by intros [_ ?]%andb_true_iff. Qed.

Lemma word_nonempty (s : string) : word s = true → is_empty s = false.
Proof. unfold word. intros [H _]%andb_true_iff. by apply negb_true_iff. Qed.

(** A spaceless text followed by a non-empty spaceless text is a word. *)
Lemma word_append_l (a b : string) :
  spaceless a = true → word b = true → word (a +:+ b) = true.
Proof.
  intros Ha Hb. unfold word.
  rewrite is_empty_append, spaceless_append, Ha, (word_spaceless _ Hb).
  rewrite (word_nonempty _ Hb). by rewrite andb_false_r.
Qed.

(** *** [split] *)

Lemma split_from_spaceless (t cur s : string) :
  spaceless t = true → split_from cur (t +:+ s) = split_from (cur +:+ t) s.
Proof.
  revert cur. induction t as [|c t IH]; intros cur Ht.
  - by rewrite append_empty_r.
  - simpl in Ht. apply andb_true_iff in Ht as [Hc Ht].
    apply negb_true_iff in Hc.
    change (String c t +:+ s) with (String c (t +:+ s)).
    change (split_from cur (String c (t +:+ s)))
      with (if isspace c
            then (if is_empty cur then split_from EmptyString (t +:+ s)
                  else cur :: split_from EmptyString (t +:+ s))
            else split_from (cur +:+ String c EmptyString) (t +:+ s)).
    rewrite Hc, IH by done. by rewrite append_assoc.
Qed.

Lemma split_word_space (t : string) (c : ascii) (s : string) :
  word t = true → isspace c = true →
  split (t +:+ String c s) = t :: split s.
Proof.
  intros Ht Hc. unfold split.
  rewrite split_from_spaceless by by apply word_spaceless.
  simpl. by rewrite Hc, (word_nonempty _ Ht).
Qed.

Lemma split_word (t : string) : word t = true → split t = [t].
Proof.
  intros Ht. unfold split.
  rewrite <- (append_empty_r t) at 1.
  rewrite split_from_spaceless by by apply word_spaceless.
  simpl. by rewrite (word_nonempty _ Ht).
Qed.

(** Splitting undoes joining when every element is a word. *)
Lemma split_unwords (ws : list string) :
  Forall (λ w, word w = true) ws → split (unwords ws) = ws.
Proof.
  induction 1 as [|w ws Hw Hws IH]; [done |].
  destruct ws as [|w' ws].
  - by apply split_word.
  - change (unwords (w :: w' :: ws))
      with (w +:+ String " " (unwords (w' :: ws))).
    rewrite split_word_space by done. by rewrite IH.
Qed.

(** *** [strip] *)

Lemma lstrip_rstrip_commute_nonspace (c : ascii) (s : string) :
  isspace c = false → lstrip (rstrip (String c s)) = rstrip (String c s).
Proof. intros Hc. simpl. rewrite Hc. simpl. by rewrite Hc. Qed.

Lemma rstrip_idem (s : string) : rstrip (rstrip s) = rstrip s.
Proof.
  induction s as [|c s IH]; simpl; [done |].
  destruct (isspace c && is_empty (rstrip s)) eqn:E; simpl; [done |].
  by rewrite IH, E.
Qed.

Lemma lstrip_head (s : string) :
  match lstrip s with
  | EmptyString => True
  | String c _ => isspace c = false
  end.
Proof.
  induction s as [|c s IH]; simpl; [done |].
  destruct (isspace c) eqn:E; [done |]. simpl. done.
Qed.

Lemma strip_idem (s : string) : strip (strip s) = strip s.
Proof.
  unfold strip. pose proof (lstrip_head s) as H.
  destruct (lstrip s) as [|c t]; [done |].
  rewrite lstrip_rstrip_commute_nonspace by done.
  apply rstrip_idem.
Qed.

Lemma lstrip_spaceless (s : string) : spaceless s = true → lstrip s = s.
Proof.
  destruct s as [|c s]; simpl; [done |].
  intros [Hc _]%andb_true_iff. apply negb_true_iff in Hc. by rewrite Hc.
Qed.

Lemma rstrip_spaceless (s : string) : spaceless s = true → rstrip s = s.
Proof.
  induction s as [|c s IH]; simpl; [done |].
  intros [Hc Hs]%andb_true_iff. apply negb_true_iff in Hc.
  by rewrite Hc, IH.
Qed.

Lemma strip_spaceless (s : string) : spaceless s = true → strip s = s.
Proof.
  intros H. unfold strip. by rewrite lstrip_spaceless, rstrip_spaceless.
Qed.

(** *** Text-mode reading *)

Lemma universal_newlines_no_cr (s : string) :
  contains CR s = false → universal_newlines false s = s.
Proof.
  induction s as [|c s IH]; simpl; [done |].
  intros [Hc Hs]%orb_false_iff. rewrite Hc, andb_false_r.
  by rewrite IH.
Qed.

Lemma spaceless_no_cr (s : string) : spaceless s = true → contains CR s = false.
Proof.
  induction s as [|c s IH]; simpl; [done |].
  intros [Hc Hs]%andb_true_iff. rewrite IH by done.
  rewrite orb_false_r. apply negb_true_iff in Hc.
  destruct (Ascii.eqb_spec c CR) as [->|]; [done | done].
Qed.

(** *** [split_on] *)

Lemma split_on_nonempty (sep : ascii) (s : string) : split_on sep s ≠ [].
Proof.
  induction s as [|c s IH]; simpl; [done |].
  destruct (Ascii.eqb c sep); [done |]. by destruct (split_on sep s).
Qed.

(** Without the separator there is one field, the whole text. *)
Lemma split_on_absent (sep : ascii) (s : string) :
  contains sep s = false → split_on sep s = [s].
Proof.
  induction s as [|c s IH]; simpl; [done |].
  intros [Hc Hs]%orb_false_iff. by rewrite Hc, IH.
Qed.

(** With the separator there are at least two. *)
Lemma split_on_present (sep : ascii) (s : string) :
  contains sep s = true → ∃ a b rest, split_on sep s = a :: b :: rest.
Proof.
  induction s as [|c s IH]; simpl; [done |].
  destruct (Ascii.eqb c sep) eqn:Hc; simpl.
  - intros _. pose proof (split_on_nonempty sep s).
    destruct (split_on sep s) as [|b rest]; [done | eauto].
  - intros Hs. destruct (IH Hs) as (a & b & rest & ->). eauto.
Qed.

Lemma second_field_none (sep : ascii) (s : string) :
  split_on sep s !! 1%nat = None ↔ contains sep s = false.
Proof.
  split.
  - intros H. destruct (contains sep s) eqn:E; [| done].
    destruct (split_on_present _ _ E) as (a & b & rest & Heq).
    by rewrite Heq in H.
  - intros H. by rewrite split_on_absent.
Qed.

End PyStrFacts.

(** ** The command lines *)

Section Commands.

(** For arguments free of white space, [cmd.split()] gives the argument
    vector that the f-string spells. *)
Lemma set_peer_argv (ip_address private_key_file wg_interface pubkey : string) :
  spaceless ip_address = true → word private_key_file = true →
  word wg_interface = true → word pubkey = true →
  split (set_peer_cmd ip_address private_key_file wg_interface pubkey)
  = ["sudo"; "wg"; "set"; wg_interface; "peer"; pubkey; "allowed-ips";
     ip_address +:+ "/24"; "--private-key"; private_key_file].
Proof.
  intros Ha Hr Hi Hpk.
  rewrite <- (split_unwords
    ["sudo"; "wg"; "set"; wg_interface; "peer"; pubkey; "allowed-ips";
     ip_address +:+ "/24"; "--private-key"; private_key_file]).
  - f_equal. unfold set_peer_cmd. rewrite !append_assoc.
    cbn [unwords]. rewrite !append_assoc. reflexivity.
  - repeat constructor; try done. by apply word_append_l.
Qed.

Lemma remove_peer_argv (pubkey wg_interface : string) :
  word pubkey = true → word wg_interface = true →
  split (remove_peer_cmd pubkey wg_interface)
  = ["sudo"; "wg"; "set"; wg_interface; "peer"; pubkey; "remove"].
Proof.
  intros Hpk Hi.
  rewrite <- (split_unwords
    ["sudo"; "wg"; "set"; wg_interface; "peer"; pubkey; "remove"]).
  - f_equal.
  - repeat constructor; done.
Qed.

Lemma show_peers_argv (wg_interface : string) :
  word wg_interface = true →
  split ("sudo wg show " +:+ wg_interface +:+ " peers")
  = ["sudo"; "wg"; "show"; wg_interface; "peers"].
Proof.
  intros Hi.
  rewrite <- (split_unwords ["sudo"; "wg"; "show"; wg_interface; "peers"]).
  - f_equal.
  - repeat constructor; done.
Qed.

End Commands.

(** ** Properties of the program *)

Section Facts.

Variable Dev : Type.
Variable surface : Call → gmap string string → Dev → Z * string * Dev.
Variable writable : string → bool.
Variable torn : string → string → option string.
Variable readable : string → bool.
Variable decode : string → option string.
Variable qr_png : string → option string.
Variable smtp_accepts : list SmtpOp → SmtpOp → bool.

(** Unfolds the monadic plumbing. *)
Ltac unfold_monad :=
  unfold mbind, M_bind, bind, mret, M_ret, ret, raise in *.

(** Unfolds the functions of the module down to the primitives. *)
Ltac unfold_program :=
  unfold main, save_peers, list_peers, remove_peer, add_peer, export,
    deliver, authorize, provision in *.

Ltac unfold_primitives :=
  unfold with_smtp, smtp_do, qr_make, write_file, read_bytes, read_text,
    run_check, check_output, spawn in *.

Local Abbreviation provision := (provision Dev surface writable torn readable decode).
Local Abbreviation authorize := (authorize Dev surface).
Local Abbreviation deliver := (deliver Dev writable torn readable qr_png smtp_accepts).
Local Abbreviation export := (export Dev writable torn readable qr_png smtp_accepts).
Local Abbreviation add_peer := (add_peer Dev surface writable torn readable decode qr_png smtp_accepts).
Local Abbreviation remove_peer := (remove_peer Dev surface).
Local Abbreviation list_peers := (list_peers Dev surface).
Local Abbreviation save_peers := (save_peers Dev surface writable torn).
Local Abbreviation main := (main Dev surface writable torn readable decode qr_png smtp_accepts).

(** *** Effects of the primitives *)

Lemma run_check_result (args : list string) (w : World Dev) :
  ∃ code out d,
    surface {| argv := args; input := None |} (fs w) (dev w) = (code, out, d)
    ∧ run_check Dev surface args w
      = (if code =? 0 then inr tt else inl (CalledProcessError code args),
         ran Dev {| argv := args; input := None |} d w).
Proof.
  unfold run_check, spawn. unfold_monad.
  destruct (surface _ (fs w) (dev w)) as [[code out] d].
  exists code, out, d. split; [done |]. by destruct (code =? 0).
Qed.

Lemma check_output_result (args : list string) (inp : option string)
    (w : World Dev) :
  ∃ code out d,
    surface {| argv := args; input := inp |} (fs w) (dev w) = (code, out, d)
    ∧ check_output Dev surface args inp w
      = (if code =? 0 then inr out else inl (CalledProcessError code args),
         ran Dev {| argv := args; input := inp |} d w).
Proof.
  unfold check_output, spawn. unfold_monad.
  destruct (surface _ (fs w) (dev w)) as [[code out] d].
  exists code, out, d. split; [done |]. by destruct (code =? 0).
Qed.

(** [add_peer] is its three steps in sequence, each ending the run when
    it raises. *)
Lemma add_peer_steps (ip_address private_key_file wg_interface : string)
    (pubkey output_dir email : option string) (w : World Dev) :
  add_peer ip_address private_key_file wg_interface pubkey output_dir email w
  = match provision private_key_file pubkey w with
    | (inl e, w1) => (inl e, w1)
    | (inr (privkey, pk), w1) =>
        match authorize ip_address private_key_file wg_interface pk w1 with
        | (inl e, w2) => (inl e, w2)
        | (inr _, w2) =>
            export wg_interface privkey pk ip_address output_dir email w2
        end
    end.
Proof.
  unfold add_peer. unfold_monad.
  destruct (provision private_key_file pubkey w) as [[e|[privkey pk]] w1];
    reflexivity.
Qed.

Lemma export_steps (wg_interface privkey pubkey ip_address : string)
    (output_dir email : option string) (w : World Dev) :
  export wg_interface privkey pubkey ip_address output_dir email w
  = if truthy email
    then deliver (qr_data_mail wg_interface privkey pubkey ip_address)
           pubkey output_dir (default EmptyString email) w
    else match qr_png (qr_data_local wg_interface privkey pubkey ip_address) with
         | Some _ =>
             (inr tt,
              log_encoded Dev
                (qr_data_local wg_interface privkey pubkey ip_address) w)
         | None =>
             (inl DataOverflowError,
              log_encoded Dev
                (qr_data_local wg_interface privkey pubkey ip_address) w)
         end.
Proof.
  unfold export, qr_make. unfold_monad.
  destruct (truthy email); [done |]. by destruct (qr_png _).
Qed.

(** The key step when a public key is given, lines 22 to 25: nothing but
    the reading of the key file. *)
Lemma provision_reuse_result (private_key_file pubkey : string) (w : World Dev) :
  pubkey ≠ EmptyString →
  provision private_key_file (Some pubkey) w
  = match fs w !! private_key_file with
    | Some b =>
        if readable private_key_file then
          match decode b with
          | Some text => (inr (strip (universal_newlines false text), pubkey), w)
          | None => (inl UnicodeDecodeError, w)
          end
        else (inl (OSError private_key_file), w)
    | None => (inl (FileNotFoundError private_key_file), w)
    end.
Proof.
  intros Hpk. destruct pubkey as [|c p]; [done |].
  unfold provision, read_text. unfold_monad. cbn [truthy negb].
  destruct (fs w !! private_key_file); [| done].
  destruct (readable private_key_file); [| done].
  by destruct (decode _).
Qed.

(** *** The dispatch in [main] *)

(** C2.  The [save] command: [main] has no branch for it, so it returns
    at once, having queried no peer list and written no file; the world
    is the one it started from. *)
Theorem main_save_does_nothing (wg_interface filename : string) (w : World Dev) :
  main (NsSave wg_interface filename) w = (inr tt, w).
Proof. reflexivity. Qed.

(** C3.  The [list] command: the branch of [main] only binds a name, so
    it returns the unit value, having run no query; the world is the one
    it started from. *)
Theorem main_list_does_nothing (wg_interface : string) (w : World Dev) :
  main (NsList wg_interface) w = (inr tt, w).
Proof. reflexivity. Qed.

(** C1.  The [add] command as [main] runs it.  The four command-line
    values are passed by position to a function that expects them in
    another order: the interface name arrives as the public key.  So for
    every non-empty interface name, whatever stands in the place of the
    public key, no key pair is generated and no file is written; the only
    process that can be started is [wg set] with the key-file path as
    interface, the interface name as peer, the public-key argument as
    address and the address as key file; and when no file is named like
    the address the command fails before that. *)
Theorem main_add_misplaces_arguments
    (pubkey ip_address private_key_file wg_interface : string)
    (w : World Dev) :
  wg_interface ≠ EmptyString →
  let out := main (NsAdd pubkey ip_address private_key_file wg_interface) w in
  fs out.2 = fs w
  ∧ (spawned out.2 = spawned w
     ∨ spawned out.2
       = (spawned w
          ++ [{| argv := split ("sudo wg set " +:+ private_key_file
                                +:+ " peer " +:+ wg_interface
                                +:+ " allowed-ips " +:+ pubkey +:+ "/24"
                                +:+ " --private-key " +:+ ip_address);
                 input := None |}])%list)
  ∧ (fs w !! ip_address = None →
     out = (inl (FileNotFoundError ip_address), w)).
Proof.
  intros Hi. cbn zeta. cbn [main]. rewrite add_peer_steps.
  rewrite provision_reuse_result by done.
  destruct (fs w !! ip_address) as [b|] eqn:Hb;
    [| by split; [| split; [left |]]].
  destruct (readable ip_address); [| by split; [| split; [left |]]].
  destruct (decode b) as [text|]; [| by split; [| split; [left |]]].
  change (authorize pubkey ip_address private_key_file wg_interface w)
    with (run_check Dev surface
            (split (set_peer_cmd pubkey ip_address private_key_file
                      wg_interface)) w).
  destruct (run_check_result
    (split (set_peer_cmd pubkey ip_address private_key_file wg_interface)) w)
    as (code & o & d & _ & ->).
  assert (set_peer_cmd pubkey ip_address private_key_file wg_interface
          = "sudo wg set " +:+ private_key_file +:+ " peer " +:+ wg_interface
            +:+ " allowed-ips " +:+ pubkey +:+ "/24"
            +:+ " --private-key " +:+ ip_address) as ->.
  { unfold set_peer_cmd. rewrite !append_assoc. reflexivity. }
  destruct (code =? 0).
  - rewrite export_steps. cbn [truthy].
    destruct (qr_png _); unfold ran, log_encoded; cbn [fst snd fs spawned];
      (split; [reflexivity |]); (split; [by right | done]).
  - unfold ran; cbn [fst snd fs spawned].
    split; [reflexivity |]. split; [by right | done].
Qed.

(** *** The profile text *)

Lemma count_append (c : ascii) (a b : string) :
  count c (a +:+ b) = (count c a + count c b)%nat.
Proof.
  induction a as [|x a IH]; [done |]. simpl. rewrite IH. lia.
Qed.

(** With a recipient the text has five line ends besides those inside
    the four values. *)
Lemma qr_data_mail_lines (wg_interface privkey pubkey ip_address : string) :
  count LF (qr_data_mail wg_interface privkey pubkey ip_address)
  = (5 + (count LF wg_interface + count LF privkey + count LF pubkey
          + count LF ip_address))%nat.
Proof.
  unfold qr_data_mail, nl. rewrite !count_append. simpl. lia.
Qed.

(** C5.  The profile built without a recipient.  The text given to the QR
    encoder is the one of lines 66 to 69: it has four line ends besides
    those inside the four values, and the text built for a recipient is
    this one followed by the endpoint line.  So without a recipient the
    profile has four lines and no endpoint. *)
Theorem export_local_has_four_lines
    (wg_interface privkey pubkey ip_address : string)
    (output_dir : option string) (w : World Dev) :
  encoded (export wg_interface privkey pubkey ip_address output_dir None w).2
  = (encoded w ++ [qr_data_local wg_interface privkey pubkey ip_address])%list
  ∧ count LF (qr_data_local wg_interface privkey pubkey ip_address)
    = (4 + (count LF wg_interface + count LF privkey + count LF pubkey
            + count LF ip_address))%nat
  ∧ qr_data_mail wg_interface privkey pubkey ip_address
    = qr_data_local wg_interface privkey pubkey ip_address
      +:+ ("endpoint <server_ip_address>:51820" +:+ nl).
Proof.
  split; [| split].
  - unfold_program. unfold qr_make. unfold_monad. cbn [truthy].
    by destruct (qr_png _).
  - unfold qr_data_local, nl. rewrite !count_append. simpl. lia.
  - reflexivity.
Qed.

(** With a recipient, the text given to the QR encoder is the five-line
    text, the one that becomes the body of the message. *)
Lemma export_mail_encodes (wg_interface privkey pubkey ip_address : string)
    (output_dir email : option string) (w : World Dev) :
  truthy email = true →
  ∃ rest,
    encoded (export wg_interface privkey pubkey ip_address output_dir email w).2
    = (encoded w ++ qr_data_mail wg_interface privkey pubkey ip_address :: rest)%list.
Proof.
  intros He. rewrite export_steps, He.
  unfold deliver, with_smtp, smtp_do, qr_make, write_file, read_bytes.
  unfold_monad. cbn zeta.
  repeat (match goal with
          | |- context [if ?b then _ else _] => destruct b
          | |- context [match qr_png ?t with _ => _ end] => destruct (qr_png t)
          | |- context [match ?m !! ?k with _ => _ end] => destruct (m !! k)
          | |- context [match torn ?p ?c with _ => _ end] => destruct (torn p c)
          | |- context [match decode ?b with _ => _ end] => destruct (decode b)
          end; cbn); by eexists.
Qed.

(** *** Key material *)

(** C4 (amended).  Reusing a key: for a non-empty public key and a key
    file holding the bytes [b], the world is never touched (no file is
    written, no process started), and the result is: [OSError] when the
    file cannot be read, [UnicodeDecodeError] when [b] is not valid in the
    encoding of the locale, and otherwise the given public key with the
    decoded text as text-mode reading and [strip] leave it (line ends
    normalised, white space removed at both ends).  The private key is
    the decoded text itself when that has no carriage return and no white
    space at its ends. *)
Theorem provision_reuses_stored_key (private_key_file pubkey b : string)
    (w : World Dev) :
  pubkey ≠ EmptyString →
  fs w !! private_key_file = Some b →
  provision private_key_file (Some pubkey) w
  = (if readable private_key_file then
       match decode b with
       | Some text => inr (strip (universal_newlines false text), pubkey)
       | None => inl UnicodeDecodeError
       end
     else inl (OSError private_key_file), w)
  ∧ (∀ text, readable private_key_file = true → decode b = Some text →
       contains CR text = false → strip text = text →
       provision private_key_file (Some pubkey) w = (inr (text, pubkey), w)).
Proof.
  intros Hpk Hb. rewrite provision_reuse_result, Hb by done. split.
  - destruct (readable private_key_file); [| done]. by destruct (decode b).
  - intros text -> -> Hcr Hstrip.
    by rewrite universal_newlines_no_cr, Hstrip.
Qed.

(** What the generating path stores is read back unchanged, when the
    key has no carriage return inside. *)
Lemma stripped_key_roundtrip (out : string) :
  contains CR (strip out) = false →
  strip (universal_newlines false (strip out)) = strip out.
Proof. intros H. by rewrite universal_newlines_no_cr, strip_idem. Qed.

(** *** The export touches neither the device nor any process *)

Lemma smtp_do_frame (op : SmtpOp) (w : World Dev) :
  let w' := (smtp_do Dev smtp_accepts op w).2 in
  dev w' = dev w ∧ spawned w' = spawned w ∧ fs w' = fs w
  ∧ mail w' = (mail w ++ [op])%list.
Proof. unfold smtp_do. by destruct (smtp_accepts _ _). Qed.



(** *** The mail session *)

Lemma provision_mail (private_key_file : string) (pubkey : option string)
    (w : World Dev) :
  mail (provision private_key_file pubkey w).2 = mail w.
Proof.
  unfold_program. unfold_primitives. unfold_monad.
  repeat (match goal with
          | |- context [if ?b then _ else _] => destruct b
          | |- context [let '(_, _) := surface ?c ?f ?d in _] =>
              destruct (surface c f d) as [[? ?] ?]
          | |- context [match ?m !! ?k with _ => _ end] => destruct (m !! k)
          | |- context [match torn ?p ?c with _ => _ end] => destruct (torn p c)
          | |- context [match decode ?b with _ => _ end] => destruct (decode b)
          end; cbn); done.
Qed.

Lemma authorize_mail (ip_address private_key_file wg_interface pubkey : string)
    (w : World Dev) :
  mail (authorize ip_address private_key_file wg_interface pubkey w).2 = mail w.
Proof.
  unfold_program.
  destruct (run_check_result
    (split (set_peer_cmd ip_address private_key_file wg_interface pubkey)) w)
    as (code & o & d & _ & ->).
  done.
Qed.

Lemma deliver_mail (qr_data pubkey : string) (output_dir : option string)
    (email : string) (w : World Dev) :
  let out := deliver qr_data pubkey output_dir email w in
  ∃ ops, mail out.2 = (mail w ++ ops)%list
         ∧ Forall embedded ops
         ∧ (out.1 = inr tt →
            ∃ image, ops = full_session email (mail_message email qr_data image)).
Proof.
  unfold_program. unfold_primitives. unfold_monad. cbn zeta.
  destruct (qr_png qr_data) as [png|]; cbn;
    [| exists []; rewrite app_nil_r; by repeat split].
  destruct (writable _); cbn;
    [| destruct (torn _ _); cbn; exists []; rewrite app_nil_r;
       by repeat split].
  rewrite lookup_insert_eq. cbn.
  destruct (readable _); cbn;
    [| exists []; rewrite app_nil_r; by repeat split].
  repeat (match goal with
          | |- context [if smtp_accepts ?h ?op then _ else _] =>
              destruct (smtp_accepts h op)
          end; cbn);
    rewrite <- ?app_assoc; cbn;
    (eexists; split; [reflexivity |]);
    (split; [by repeat constructor |]); intros H; try discriminate H.
  by eexists.
Qed.

(** C9 (amended).  Every SMTP operation that [add_peer] attempts names
    the server, the account, the password and the sender written in the
    source, whatever its arguments and whatever the world holds; and a
    run with a recipient that returns normally has made exactly the
    session connect, EHLO, STARTTLS, login with the embedded account and
    password, send from the embedded sender, quit. *)
Theorem delivery_uses_embedded_credentials
    (ip_address private_key_file wg_interface : string)
    (pubkey output_dir email : option string)
    (w : World Dev) (r : exn + unit) (w' : World Dev) :
  add_peer ip_address private_key_file wg_interface pubkey output_dir email w
  = (r, w') →
  ∃ ops, mail w' = (mail w ++ ops)%list
         ∧ Forall embedded ops
         ∧ (truthy email = true → r = inr tt →
            logins ops = [("your_email@example.com", "your_email_password")]
            ∧ ∃ msg, ops = full_session (default EmptyString email) msg).
Proof.
  rewrite add_peer_steps.
  pose proof (provision_mail private_key_file pubkey w) as Hp.
  destruct (provision private_key_file pubkey w) as [[e|[privkey pk]] w1];
    cbn in Hp.
  { intros [= <- <-]. exists []. rewrite app_nil_r. by repeat split. }
  pose proof (authorize_mail ip_address private_key_file wg_interface pk w1)
    as Ha.
  destruct (authorize ip_address private_key_file wg_interface pk w1)
    as [[e|[]] w2]; cbn in Ha.
  { intros [= <- <-]. exists []. rewrite app_nil_r, Ha. by repeat split. }
  rewrite export_steps, <- Hp, <- Ha.
  destruct email as [[|c email]|]; cbn [truthy default from_option id].
  - destruct (qr_png _); cbn;
      intros [= <- <-]; exists []; rewrite app_nil_r; by repeat split.
  - pose proof (deliver_mail
      (qr_data_mail wg_interface privkey pk ip_address) pk output_dir
      (String c email) w2) as (ops & Hm & Hemb & Hfull).
    intros Hrun. rewrite Hrun in Hm, Hfull. cbn in Hm, Hfull.
    exists ops. split; [done |]. split; [done |].
    intros _ Hr. destruct (Hfull Hr) as [image ->]. split; [done |].
    by eexists.
  - destruct (qr_png _); cbn;
      intros [= <- <-]; exists []; rewrite app_nil_r; by repeat split.
Qed.

(** *** Parsing the peer list *)

(** The comprehension succeeds exactly when every line has a tab, and
    then gives the second field of each line, in the order of the
    lines. *)
Lemma second_fields_ok (lines keys : list string) :
  second_fields lines = inr keys
  ↔ Forall2 (λ line key, split_on TAB line !! 1%nat = Some key) lines keys.
Proof.
  revert keys. induction lines as [|line rest IH]; intros keys; simpl.
  - split; [by intros [= <-] | by intros ->%Forall2_nil_inv_l].
  - destruct (split_on TAB line !! 1%nat) as [key|] eqn:Hk.
    + destruct (second_fields rest) as [e|keys'] eqn:Hrest.
      * split; [done |].
        intros (k & ks & Hk' & Hks & ->)%Forall2_cons_inv_l.
        apply IH in Hks. done.
      * split.
        -- intros [= <-]. constructor; [done | by apply IH].
        -- intros (k & ks & Hk' & Hks & ->)%Forall2_cons_inv_l.
           apply IH in Hks. by simplify_eq.
    + split; [done |].
      intros (k & ks & Hk' & _ & _)%Forall2_cons_inv_l. congruence.
Qed.

Lemma second_fields_error (lines : list string) (e : exn) :
  second_fields lines = inl e → e = IndexError.
Proof.
  induction lines as [|line rest IH]; simpl; [done |].
  destruct (split_on TAB line !! 1%nat); [| by intros [= <-]].
  destruct (second_fields rest); [| done].
  intros [= <-]. by apply IH.
Qed.

Lemma second_fields_tabless (lines : list string) (line : string) :
  line ∈ lines → contains TAB line = false →
  second_fields lines = inl IndexError.
Proof.
  intros Hin Htab. destruct (second_fields lines) as [e|keys] eqn:E.
  - f_equal. by eapply second_fields_error.
  - apply second_fields_ok in E.
    apply list_elem_of_lookup in Hin as [n Hn].
    destruct (Forall2_lookup_l _ _ _ _ _ E Hn) as (key & _ & Hkey).
    apply second_field_none in Htab. congruence.
Qed.

(** [list_peers] runs one query and parses what it prints. *)
Lemma list_peers_result (wg_interface : string) (w : World Dev)
    (code : Z) (out : string) (d : Dev) :
  surface (show_call wg_interface) (fs w) (dev w) = (code, out, d) →
  list_peers wg_interface w
  = (if code =? 0 then parse_peers out
     else inl (CalledProcessError code (argv (show_call wg_interface))),
     ran Dev (show_call wg_interface) d w).
Proof.
  intros Hs. unfold list_peers, check_output, spawn. unfold_monad.
  fold (show_call wg_interface). rewrite Hs.
  destruct (code =? 0); [| done]. cbn.
  by destruct (parse_peers out).
Qed.

(** C10.  The parser and tabs.  Let the query print [out].  If
    [list_peers] returns a list, every line of the stripped output, empty
    or not, has a tab.  If the query exits with 0 and some line has no
    tab, [list_peers] raises [IndexError]: neither a value nor the
    [CalledProcessError] of a failed command. *)
Theorem list_peers_needs_tabs (wg_interface : string) (w : World Dev)
    (code : Z) (out : string) (d : Dev) :
  surface (show_call wg_interface) (fs w) (dev w) = (code, out, d) →
  (∀ keys w', list_peers wg_interface w = (inr keys, w') →
     ∀ line, line ∈ split_on LF (strip out) → contains TAB line = true)
  ∧ (code = 0 →
     ∀ line, line ∈ split_on LF (strip out) → contains TAB line = false →
       list_peers wg_interface w
       = (inl IndexError, ran Dev (show_call wg_interface) d w)).
Proof.
  intros Hs. rewrite (list_peers_result _ _ _ _ _ Hs). split.
  - intros keys w' Hok line Hin.
    destruct (code =? 0); [| done].
    destruct (contains TAB line) eqn:Htab; [done |].
    unfold parse_peers in Hok.
    rewrite (second_fields_tabless _ _ Hin Htab) in Hok. done.
  - intros -> line Hin Htab. cbn. unfold parse_peers.
    by rewrite (second_fields_tabless _ _ Hin Htab).
Qed.

(** When the query succeeds and every line has a tab, [list_peers]
    returns the second fields in the order of the lines. *)
Lemma list_peers_ok (wg_interface : string) (w : World Dev)
    (out : string) (d : Dev) (keys : list string) :
  surface (show_call wg_interface) (fs w) (dev w) = (0, out, d) →
  Forall2 (λ line key, split_on TAB line !! 1%nat = Some key)
    (split_on LF (strip out)) keys →
  list_peers wg_interface w
  = (inr keys, ran Dev (show_call wg_interface) d w).
Proof.
  intros Hs Hk. rewrite (list_peers_result _ _ _ _ _ Hs). cbn.
  unfold parse_peers. by apply second_fields_ok in Hk as ->.
Qed.

(** [save_peers], called directly, writes the JSON text of what
    [list_peers] returned, replacing what the file held; it writes
    nothing when the query or the parse fails. *)
Lemma save_peers_result (wg_interface filename : string) (w : World Dev) :
  save_peers wg_interface filename w
  = match list_peers wg_interface w with
    | (inl e, w1) => (inl e, w1)
    | (inr keys, w1) =>
        if writable filename
        then (inr tt, set_fs Dev (<[filename := Json.dumps keys]> (fs w1)) w1)
        else match torn filename (Json.dumps keys) with
             | Some rest =>
                 (inl (OSError filename),
                  set_fs Dev (<[filename := rest]> (fs w1)) w1)
             | None => (inl (OSError filename), w1)
             end
    end.
Proof.
  unfold save_peers, write_file. unfold_monad.
  by destruct (list_peers wg_interface w) as [[e|keys] w1].
Qed.

(** *** Removing a peer *)

(** [remove_peer] runs one command and raises exactly when it exits with
    a status other than 0. *)
Lemma remove_peer_result (pubkey wg_interface : string) (w : World Dev)
    (code : Z) (out : string) (d : Dev) :
  surface (remove_call pubkey wg_interface) (fs w) (dev w) = (code, out, d) →
  remove_peer pubkey wg_interface w
  = (if code =? 0 then inr tt
     else inl (CalledProcessError code (argv (remove_call pubkey wg_interface))),
     ran Dev (remove_call pubkey wg_interface) d w).
Proof.
  intros Hs. unfold remove_peer, run_check, spawn. unfold_monad.
  fold (remove_call pubkey wg_interface). rewrite Hs.
  by destruct (code =? 0).
Qed.

Lemma filter_ne_idem (pk : string) (l : list string) :
  filter (λ p, p ≠ pk) (filter (λ p, p ≠ pk) l) = filter (λ p, p ≠ pk) l.
Proof.
  induction l as [|x l IH]; [done |].
  rewrite filter_cons. destruct (decide (x ≠ pk)) as [Hx|Hx].
  - rewrite filter_cons. destruct (decide (x ≠ pk)); [| done].
    by rewrite IH.
  - done.
Qed.

Lemma filter_ne_absent (pk : string) (l : list string) :
  pk ∉ l → filter (λ p, p ≠ pk) l = l.
Proof.
  induction l as [|x l IH]; [done |].
  intros [Hx Hl]%not_elem_of_cons.
  rewrite filter_cons. destruct (decide (x ≠ pk)); [| done].
  by rewrite IH.
Qed.

(** C6 (amended).  Removing a peer.  For every public key and interface
    name, the [remove] command runs one process and returns normally
    exactly when that process exits with 0; otherwise it raises
    [CalledProcessError] with its status.  So, on a control surface where
    removal is a set operation, for a public key and an interface name
    that are single words and an interface that exists: the command
    returns normally, run again it returns normally too and the peers of
    every interface are those left by the first run; and when the key was
    not among the peers, the command returns normally (exit status 0) and
    the peers of every interface are unchanged. *)
Theorem remove_twice_is_remove_once (pubkey wg_interface : string)
    (w : World Dev) :
  (∀ code out d,
     surface (remove_call pubkey wg_interface) (fs w) (dev w) = (code, out, d) →
     main (NsRemove pubkey wg_interface) w
     = (if code =? 0 then inr tt
        else inl (CalledProcessError code
                    (argv (remove_call pubkey wg_interface))),
        ran Dev (remove_call pubkey wg_interface) d w))
  ∧ (∀ (peers_on : Dev → string → option (list string)) (l : list string),
       set_removal surface peers_on →
       word pubkey = true → word wg_interface = true →
       peers_on (dev w) wg_interface = Some l →
       ∃ w1 w2,
         main (NsRemove pubkey wg_interface) w = (inr tt, w1)
         ∧ main (NsRemove pubkey wg_interface) w1 = (inr tt, w2)
         ∧ (∀ j, peers_on (dev w2) j = peers_on (dev w1) j)
         ∧ exit_status (main (NsRemove pubkey wg_interface) w1).1 = 0
         ∧ (pubkey ∉ l →
            exit_status (main (NsRemove pubkey wg_interface) w).1 = 0
            ∧ ∀ j, peers_on (dev w1) j = peers_on (dev w) j)).
Proof.
  split.
  { intros code out d Hs. cbn [main]. by apply (remove_peer_result _ _ _ _ out). }
  intros peers_on l Hset Hpk Hi Hl.
  destruct (Hset (fs w) (dev w) wg_interface pubkey l Hi Hpk Hl)
    as (out1 & d1 & Hs1 & Hl1 & Hother1).
  rewrite <- (remove_peer_argv pubkey wg_interface Hpk Hi) in Hs1.
  pose proof (remove_peer_result pubkey wg_interface w 0 out1 d1 Hs1) as H1.
  set (w1 := ran Dev (remove_call pubkey wg_interface) d1 w) in *.
  destruct (Hset (fs w1) (dev w1) wg_interface pubkey _ Hi Hpk Hl1)
    as (out2 & d2 & Hs2 & Hl2 & Hother2).
  rewrite <- (remove_peer_argv pubkey wg_interface Hpk Hi) in Hs2.
  pose proof (remove_peer_result pubkey wg_interface w1 0 out2 d2 Hs2) as H2.
  exists w1, (ran Dev (remove_call pubkey wg_interface) d2 w1).
  cbn [main]. rewrite H1, H2. cbn.
  split; [done |]. split; [done |]. split; [| split; [done |]].
  - intros j. destruct (decide (j = wg_interface)) as [->|Hj].
    + rewrite Hl2, Hl1. by rewrite filter_ne_idem.
    + by apply Hother2.
  - intros Habsent. split; [done |].
    intros j. destruct (decide (j = wg_interface)) as [->|Hj].
    + rewrite Hl1, Hl. by rewrite filter_ne_absent.
    + by apply Hother1.
Qed.

(** *** [add_peer] called as its signature asks *)


(** The authorization, lines 27 to 31, for arguments free of white
    space: one [wg set] process with the allowed address under /24. *)
Lemma authorize_result (ip_address private_key_file wg_interface pubkey : string)
    (w : World Dev) (code : Z) (out : string) (d : Dev) :
  spaceless ip_address = true → word private_key_file = true →
  word wg_interface = true → word pubkey = true →
  let call := {| argv := ["sudo"; "wg"; "set"; wg_interface; "peer"; pubkey;
                          "allowed-ips"; ip_address +:+ "/24";
                          "--private-key"; private_key_file];
                 input := None |} in
  surface call (fs w) (dev w) = (code, out, d) →
  authorize ip_address private_key_file wg_interface pubkey w
  = (if code =? 0 then inr tt else inl (CalledProcessError code (argv call)),
     ran Dev call d w).
Proof.
  intros Ha Hr Hi Hpk call Hs.
  unfold authorize, run_check, spawn. unfold_monad.
  rewrite set_peer_argv by done. fold call. rewrite Hs.
  by destruct (code =? 0).
Qed.


End Facts.

(** ** The program on the reference environment *)

Section Instances.

Local Abbreviation run_provision :=
  (provision Ref.Dev Ref.surface Ref.writable Ref.torn Ref.readable Ref.decode).
Local Abbreviation run_authorize := (authorize Ref.Dev Ref.surface).
Local Abbreviation run_export :=
  (export Ref.Dev Ref.writable Ref.torn Ref.readable Ref.qr_png).
Local Abbreviation run_add :=
  (add_peer Ref.Dev Ref.surface Ref.writable Ref.torn Ref.readable Ref.decode
     Ref.qr_png).
Local Abbreviation run_main :=
  (main Ref.Dev Ref.surface Ref.writable Ref.torn Ref.readable Ref.decode
     Ref.qr_png Ref.smtp_up).

Lemma peers_of_update_eq (ls : list (string * list string)) (i : string)
    (f : list string → list string) :
  Ref.peers_of (Ref.update ls i f) i = f <$> Ref.peers_of ls i.
Proof.
  induction ls as [|[j ps] ls IH]; [done |]. simpl.
  destruct (String.eqb j i) eqn:E; simpl; by rewrite E.
Qed.

Lemma peers_of_update_ne (ls : list (string * list string)) (i j : string)
    (f : list string → list string) :
  j ≠ i → Ref.peers_of (Ref.update ls i f) j = Ref.peers_of ls j.
Proof.
  intros Hj. induction ls as [|[k ps] ls IH]; [done |]. simpl.
  destruct (String.eqb k i) eqn:E; simpl; [| by rewrite IH].
  apply String.eqb_eq in E as ->.
  destruct (String.eqb i j) eqn:E'; [| done].
  apply String.eqb_eq in E'. congruence.
Qed.

(** Removal on the reference surface is a set operation. *)
Lemma ref_set_removal : set_removal Ref.surface Ref.peers_on.
Proof.
  intros files d i pk l _ _ Hl. unfold Ref.peers_on in *.
  change (Ref.surface {| argv := ["sudo"; "wg"; "set"; i; "peer"; pk; "remove"];
                         input := None |} files d)
    with (Ref.on_link d i (Ref.without pk)).
  unfold Ref.on_link. rewrite Hl.
  eexists _, _. split; [done |]. cbn. split.
  - by rewrite peers_of_update_eq, Hl.
  - intros j Hj. by apply peers_of_update_ne.
Qed.

(** Called as its signature asks, on the scenario of the specification,
    [add_peer] does generate, store and authorize. *)
Example add_peer_scenario :
  let out := run_add Ref.smtp_up "10.0.0.5" "/tmp/peerA.key" "wg0"
               None None None fresh in
  out.1 = inr tt
  ∧ fs out.2 !! "/tmp/peerA.key" = Some "PRIV"
  ∧ Ref.peers_on (dev out.2) "wg0" = Some ["pub-PRIV"]
  ∧ argv <$> spawned out.2
    = [["wg"; "genkey"]; ["wg"; "pubkey"];
       ["sudo"; "wg"; "set"; "wg0"; "peer"; "pub-PRIV"; "allowed-ips";
        "10.0.0.5/24"; "--private-key"; "/tmp/peerA.key"]].
Proof. vm_compute. done. Qed.

(** C1, at the scenario of the specification given on the command line
    with an empty public key: the command fails on the file named like
    the address and the world is untouched. *)
Lemma main_add_misplaces_arguments_witness :
  run_main (NsAdd EmptyString "10.0.0.5" "/tmp/peerA.key" "wg0") fresh
  = (inl (FileNotFoundError "10.0.0.5"), fresh).
Proof.
  apply (main_add_misplaces_arguments Ref.Dev Ref.surface Ref.writable
           Ref.torn Ref.readable Ref.decode Ref.qr_png Ref.smtp_up EmptyString "10.0.0.5" "/tmp/peerA.key"
           "wg0" fresh).
  - discriminate.
  - reflexivity.
Defined.

(** C4, the claim as stated fails: the key file holds the key and a line
    end, the private key returned is the key without it; and with an empty
    public key the key file is written.  Under UTF-8, a key file ending
    with the byte A0 is refused, and one ending with the bytes C2 A0 (a
    no-break space) gives the key without them. *)
Lemma provision_does_not_return_stored_bytes :
  fs with_key_file !! "/tmp/peerA.key" = Some ("PRIV" +:+ nl)
  ∧ (run_provision "/tmp/peerA.key" (Some "PUB") with_key_file).1
    = inr ("PRIV", "PUB")
  ∧ "PRIV" ≠ "PRIV" +:+ nl
  ∧ fs (run_provision "/tmp/peerA.key" (Some EmptyString)
          (Ref.world {[ "/tmp/peerA.key" := "OLD" ]} (Ref.wg0 [] ["PRIV"]))).2
    !! "/tmp/peerA.key" = Some "PRIV"
  ∧ (run_provision "/tmp/peerA.key" (Some "PUB")
       (Ref.world
          {[ "/tmp/peerA.key" := "PRIV" +:+ String (ascii_of_nat 160) nl ]}
          (Ref.wg0 [] []))).1
    = inl UnicodeDecodeError
  ∧ (run_provision "/tmp/peerA.key" (Some "PUB")
       (Ref.world {[ "/tmp/peerA.key"
                     := "PRIV" +:+ String (ascii_of_nat 194)
                                     (String (ascii_of_nat 160) nl) ]}
          (Ref.wg0 [] []))).1
    = inr ("PRIV", "PUB").
Proof. vm_compute. repeat split; first [reflexivity | discriminate]. Qed.

Lemma provision_reuses_stored_key_witness :
  run_provision "/tmp/peerA.key" (Some "PUB") with_key_file
  = (inr ("PRIV", "PUB"), with_key_file).
Proof.
  refine (proj1 (provision_reuses_stored_key Ref.Dev Ref.surface Ref.writable
                   Ref.torn Ref.readable Ref.decode
                   "/tmp/peerA.key" "PUB" ("PRIV" +:+ nl) with_key_file _ _));
    first [reflexivity | discriminate].
Defined.


(** C9, the claim as stated fails: two runs whose environments name
    different accounts both complete and present the same credentials,
    those written in the source. *)
Lemma credentials_ignore_configuration :
  let run env :=
    run_add Ref.smtp_up "10.0.0.5" "/tmp/peerA.key" "wg0" None None
      (Some "peer@example.org")
      (Ref.world_env env ∅ (Ref.wg0 [] ["PRIV"])) in
  env_a !! "SMTP_USER" ≠ env_b !! "SMTP_USER"
  ∧ environ (run env_a).2 = env_a ∧ environ (run env_b).2 = env_b
  ∧ (run env_a).1 = inr tt ∧ (run env_b).1 = inr tt
  ∧ logins (mail (run env_a).2) = logins (mail (run env_b).2)
  ∧ logins (mail (run env_a).2)
    = [("your_email@example.com", "your_email_password")].
Proof. vm_compute. repeat split; first [reflexivity | discriminate]. Qed.

Lemma delivery_uses_embedded_credentials_witness :
  ∃ ops,
    mail (run_add Ref.smtp_up "10.0.0.5" "/tmp/peerA.key" "wg0" None None
            (Some "peer@example.org") fresh).2 = ops
    ∧ Forall embedded ops
    ∧ logins ops = [("your_email@example.com", "your_email_password")].
Proof.
  destruct (delivery_uses_embedded_credentials Ref.Dev Ref.surface
              Ref.writable Ref.torn Ref.readable Ref.decode Ref.qr_png
              Ref.smtp_up "10.0.0.5" "/tmp/peerA.key"
              "wg0" None None (Some "peer@example.org") fresh (inr tt)
              (run_add Ref.smtp_up "10.0.0.5" "/tmp/peerA.key" "wg0" None None
                 (Some "peer@example.org") fresh).2)
    as (ops & Hmail & Hemb & Hfull).
  - vm_compute. reflexivity.
  - exists ops. split; [exact Hmail |]. split; [exact Hemb |].
    exact (proj1 (Hfull eq_refl eq_refl)).
Defined.

(** C10, on the output of the real tool: one key per line, no tab. *)
Lemma list_peers_needs_tabs_witness :
  (list_peers Ref.Dev Ref.surface_plain "wg0"
     (Ref.world ∅ (Ref.wg0 ["KEY1="; "KEY2="] []))).1
  = inl IndexError.
Proof.
  pose proof (list_peers_needs_tabs Ref.Dev Ref.surface_plain "wg0"
                (Ref.world ∅ (Ref.wg0 ["KEY1="; "KEY2="] []))
                0 ("KEY1=" +:+ nl +:+ "KEY2=" +:+ nl)
                (Ref.wg0 ["KEY1="; "KEY2="] []) eq_refl) as [_ H].
  rewrite (H eq_refl "KEY1="); [reflexivity | | reflexivity].
  vm_compute. apply list_elem_of_here.
Defined.

(** C6, on the reference surface: a peer removed twice, and a peer that
    was never there. *)
Lemma remove_twice_is_remove_once_witness :
  ∃ w1 w2,
    run_main (NsRemove "PUB-A" "wg0") (Ref.world ∅ (Ref.wg0 ["PUB-A"; "PUB-B"] []))
    = (inr tt, w1)
    ∧ run_main (NsRemove "PUB-A" "wg0") w1 = (inr tt, w2)
    ∧ (∀ j, Ref.peers_on (dev w2) j = Ref.peers_on (dev w1) j).
Proof.
  destruct (proj2 (remove_twice_is_remove_once Ref.Dev Ref.surface
                     Ref.writable Ref.torn Ref.readable Ref.decode Ref.qr_png
                     Ref.smtp_up "PUB-A" "wg0"
                     (Ref.world ∅ (Ref.wg0 ["PUB-A"; "PUB-B"] [])))
              Ref.peers_on ["PUB-A"; "PUB-B"]
              ref_set_removal eq_refl eq_refl eq_refl)
    as (w1 & w2 & H1 & H2 & H3 & _).
  exists w1, w2. split; [exact H1 |]. split; [exact H2 | exact H3].
Defined.

(** C6, the claim as stated fails: on an interface that does not exist
    the control command exits with 1, so the second of two removals
    raises as the first did, and the removal of a peer that was never
    present ends with exit status 1. *)
Lemma remove_twice_raises_without_interface :
  let w := Ref.world ∅ (Ref.wg0 ["PUB-A"] []) in
  let out1 := run_main (NsRemove "PUB-A" "wg9") w in
  let out2 := run_main (NsRemove "PUB-A" "wg9") out1.2 in
  out2.1 = inl (CalledProcessError 1
                  ["sudo"; "wg"; "set"; "wg9"; "peer"; "PUB-A"; "remove"])
  ∧ exit_status (run_main (NsRemove "PUB-C" "wg9") w).1 = 1.
Proof. vm_compute. split; reflexivity. Qed.

Example remove_absent_peer :
  let out := run_main (NsRemove "PUB-C" "wg0")
               (Ref.world ∅ (Ref.wg0 ["PUB-A"; "PUB-B"] [])) in
  exit_status out.1 = 0
  ∧ Ref.peers_on (dev out.2) "wg0" = Some ["PUB-A"; "PUB-B"].
Proof. vm_compute. done. Qed.

(** When the command fails, here for want of the interface, both runs
    raise. *)
Example remove_on_missing_interface :
  let w := Ref.world ∅ (Ref.wg0 ["PUB-A"] []) in
  let out1 := run_main (NsRemove "PUB-A" "wg9") w in
  let out2 := run_main (NsRemove "PUB-A" "wg9") out1.2 in
  exit_status out1.1 = 1 ∧ exit_status out2.1 = 1.
Proof. vm_compute. done. Qed.

End Instances.


(** ** Further properties: strings and JSON *)

Section MoreStrings.

(** Splitting at a white-space character splits both sides. *)
Lemma split_from_app_space (cur a : string) (c : ascii) (b : string) :
  isspace c = true →
  split_from cur (a +:+ String c b) = (split_from cur a ++ split b)%list.
Proof.
  intros Hc. revert cur. induction a as [|x a IH]; intros cur.
  - cbn. rewrite Hc. by destruct (is_empty cur).
  - cbn. destruct (isspace x).
    + destruct (is_empty cur); cbn; by rewrite IH.
    + apply IH.
Qed.

Lemma split_app_space (a : string) (c : ascii) (b : string) :
  isspace c = true → split (a +:+ String c b) = (split a ++ split b)%list.
Proof. apply split_from_app_space. Qed.

Lemma spaceless_snoc (cur : string) (c : ascii) :
  spaceless cur = true → isspace c = false →
  spaceless (cur +:+ String c EmptyString) = true.
Proof.
  intros Hcur Hc. rewrite spaceless_append, Hcur. cbn. by rewrite Hc.
Qed.

(** What [split] returns are words: non-empty and free of white space. *)
Lemma split_from_words (cur s : string) :
  spaceless cur = true → Forall (λ w, word w = true) (split_from cur s).
Proof.
  revert cur. induction s as [|c s IH]; intros cur Hcur; cbn.
  - destruct (is_empty cur) eqn:E; [done |].
    constructor; [| done]. unfold word. by rewrite E, Hcur.
  - destruct (isspace c) eqn:Hc.
    + destruct (is_empty cur) eqn:E; [by apply IH |].
      constructor; [| by apply IH]. unfold word. by rewrite E, Hcur.
    + apply IH. by apply spaceless_snoc.
Qed.

Lemma split_words (s : string) : Forall (λ w, word w = true) (split s).
Proof. by apply split_from_words. Qed.

(** A character of a stripped text, or of one of its fields, is a
    character of the text. *)
Lemma contains_lstrip (c : ascii) (s : string) :
  contains c (lstrip s) = true → contains c s = true.
Proof.
  induction s as [|x s IH]; cbn; [done |].
  destruct (isspace x); [| done].
  intros H. rewrite (IH H). by rewrite orb_true_r.
Qed.

Lemma contains_rstrip (c : ascii) (s : string) :
  contains c (rstrip s) = true → contains c s = true.
Proof.
  induction s as [|x s IH]; cbn; [done |].
  destruct (isspace x && is_empty (rstrip s)); cbn; [done |].
  intros [H|H]%orb_true_iff; [by rewrite H |].
  rewrite (IH H). by rewrite orb_true_r.
Qed.

Lemma contains_strip (c : ascii) (s : string) :
  contains c (strip s) = true → contains c s = true.
Proof. intros H. by apply contains_lstrip, contains_rstrip. Qed.

Lemma contains_split_on (c sep : ascii) (s line : string) :
  line ∈ split_on sep s → contains c line = true → contains c s = true.
Proof.
  revert line. induction s as [|x s IH]; intros line; cbn.
  - intros ->%list_elem_of_singleton. done.
  - destruct (Ascii.eqb x sep).
    + intros [->|Hin]%elem_of_cons; [done |].
      intros H. rewrite (IH _ Hin H). by rewrite orb_true_r.
    + pose proof (split_on_nonempty sep s) as Hne.
      destruct (split_on sep s) as [|h t] eqn:E; [done |].
      intros [->|Hin]%elem_of_cons.
      * cbn. intros [H|H]%orb_true_iff; [by rewrite H |].
        rewrite (IH h); [by rewrite orb_true_r | by left | done].
      * intros H. rewrite (IH line); [by rewrite orb_true_r | by right | done].
Qed.

(** *** Reading back what [Json.dumps] wrote *)

Lemma loads_escape_char (c : ascii) (items : list string) (cur t : string) :
  Json.loads_from Json.InStr items cur (Json.escape_char c +:+ t)
  = Json.loads_from Json.InStr items (cur +:+ String c EmptyString) t.
Proof.
  destruct c as [[] [] [] [] [] [] [] []]; reflexivity.
Qed.

Lemma loads_escape (s : string) (items : list string) (cur t : string) :
  Json.loads_from Json.InStr items cur
    (Json.escape s +:+ String Json.DQUOTE t)
  = Json.loads_from Json.After (items ++ [cur +:+ s]) EmptyString t.
Proof.
  revert cur. induction s as [|c s IH]; intros cur.
  - cbn. by rewrite append_empty_r.
  - cbn [Json.escape]. rewrite append_assoc, loads_escape_char, IH.
    by rewrite append_assoc.
Qed.

End MoreStrings.

(** ** Further properties of the program *)

Section Coverage.

Variable Dev : Type.
Variable surface : Call → gmap string string → Dev → Z * string * Dev.
Variable writable : string → bool.
Variable torn : string → string → option string.
Variable readable : string → bool.
Variable decode : string → option string.
Variable qr_png : string → option string.
Variable smtp_accepts : list SmtpOp → SmtpOp → bool.

Ltac unfold_provision := unfold provision.
Ltac unfold_authorize := unfold authorize.
Ltac unfold_deliver := unfold deliver.

Ltac unfold_monad :=
  unfold mbind, M_bind, bind, mret, M_ret, ret, raise in *.

Local Abbreviation provision := (provision Dev surface writable torn readable decode).
Local Abbreviation authorize := (authorize Dev surface).
Local Abbreviation deliver := (deliver Dev writable torn readable qr_png smtp_accepts).
Local Abbreviation export := (export Dev writable torn readable qr_png smtp_accepts).
Local Abbreviation add_peer := (add_peer Dev surface writable torn readable decode qr_png smtp_accepts).
Local Abbreviation remove_peer := (remove_peer Dev surface).
Local Abbreviation list_peers := (list_peers Dev surface).
Local Abbreviation save_peers := (save_peers Dev surface writable torn).

(** *** What [save_peers] writes *)

Lemma loads_items (x : string) (l items : list string) (st : Json.state) :
  st = Json.First ∨ st = Json.Sep2 →
  Json.loads_from st items EmptyString
    (Json.join (Json.dumps_str <$> x :: l) +:+ "]")
  = Some (items ++ x :: l)%list.
Proof.
  revert x items st. induction l as [|y l IH]; intros x items st Hst.
  - cbn [fmap list_fmap Json.join]. unfold Json.dumps_str.
    change (String Json.DQUOTE (Json.escape x +:+ String Json.DQUOTE EmptyString)
            +:+ "]")
      with (String Json.DQUOTE
              ((Json.escape x +:+ String Json.DQUOTE EmptyString) +:+ "]")).
    rewrite append_assoc.
    assert (Json.loads_from st items EmptyString
              (String Json.DQUOTE
                 (Json.escape x +:+ String Json.DQUOTE EmptyString +:+ "]"))
            = Json.loads_from Json.InStr items EmptyString
                (Json.escape x +:+ String Json.DQUOTE EmptyString +:+ "]")) as ->.
    { by destruct Hst as [-> | ->]. }
    change (String Json.DQUOTE EmptyString +:+ "]")
      with (String Json.DQUOTE "]").
    rewrite loads_escape. reflexivity.
  - change (Json.join (Json.dumps_str <$> x :: y :: l))
      with (Json.dumps_str x +:+ ", " +:+ Json.join (Json.dumps_str <$> y :: l)).
    unfold Json.dumps_str at 1.
    change (String Json.DQUOTE (Json.escape x +:+ String Json.DQUOTE EmptyString)
            +:+ ", " +:+ Json.join (Json.dumps_str <$> y :: l))
      with (String Json.DQUOTE
              ((Json.escape x +:+ String Json.DQUOTE EmptyString)
               +:+ ", " +:+ Json.join (Json.dumps_str <$> y :: l))).
    change (String Json.DQUOTE
              ((Json.escape x +:+ String Json.DQUOTE EmptyString)
               +:+ ", " +:+ Json.join (Json.dumps_str <$> y :: l)) +:+ "]")
      with (String Json.DQUOTE
              (((Json.escape x +:+ String Json.DQUOTE EmptyString)
                +:+ ", " +:+ Json.join (Json.dumps_str <$> y :: l)) +:+ "]")).
    rewrite !append_assoc.
    assert (∀ t, Json.loads_from st items EmptyString (String Json.DQUOTE t)
                 = Json.loads_from Json.InStr items EmptyString t) as ->.
    { intros t. by destruct Hst as [-> | ->]. }
    change (String Json.DQUOTE EmptyString
            +:+ ", " +:+ Json.join (Json.dumps_str <$> y :: l) +:+ "]")
      with (String Json.DQUOTE
              (", " +:+ Json.join (Json.dumps_str <$> y :: l) +:+ "]")).
    rewrite loads_escape.
    change (Json.loads_from Json.After (items ++ [EmptyString +:+ x]) EmptyString
              (", " +:+ Json.join (Json.dumps_str <$> y :: l) +:+ "]"))
      with (Json.loads_from Json.Sep2 (items ++ [x]) EmptyString
              (Json.join (Json.dumps_str <$> y :: l) +:+ "]")).
    rewrite IH by by right. by rewrite <- app_assoc.
Qed.

(** Reading back what [Json.dumps] wrote gives the list. *)
Lemma loads_dumps (l : list string) : Json.loads (Json.dumps l) = Some l.
Proof.
  destruct l as [|x l]; [reflexivity |].
  unfold Json.loads, Json.dumps.
  change (Json.loads_from Json.Open [] EmptyString
            ("[" +:+ Json.join (Json.dumps_str <$> x :: l) +:+ "]"))
    with (Json.loads_from Json.First [] EmptyString
            (Json.join (Json.dumps_str <$> x :: l) +:+ "]")).
  by rewrite loads_items by by left.
Qed.

(** X1.  The JSON text of a list of strings reads back to that list, the
    same strings in the same order; so two different lists never have the
    same text. *)
Theorem json_round_trip (l1 l2 : list string) :
  Json.loads (Json.dumps l1) = Some l1
  ∧ (Json.dumps l1 = Json.dumps l2 → l1 = l2).
Proof.
  split; [apply loads_dumps |].
  intros H. apply (f_equal Json.loads) in H.
  rewrite !loads_dumps in H. by simplify_eq.
Qed.

(** X2.  A successful [save_peers]: the query succeeded and parsed, the
    file holds the JSON text of exactly the list that [list_peers]
    returned; every other file is as before and nothing ran after the
    query. *)
Theorem save_peers_snapshot (wg_interface filename : string)
    (w w' : World Dev) :
  save_peers wg_interface filename w = (inr tt, w') →
  ∃ keys w1,
    list_peers wg_interface w = (inr keys, w1)
    ∧ fs w' !! filename = Some (Json.dumps keys)
    ∧ (∀ other, other ≠ filename → fs w' !! other = fs w !! other)
    ∧ dev w' = dev w1 ∧ spawned w' = spawned w1.
Proof.
  rewrite save_peers_result.
  destruct (list_peers wg_interface w) as [[e|keys] w1] eqn:Hl; [done |].
  destruct (writable filename); [| by destruct (torn _ _)].
  intros [= <-]. exists keys, w1. cbn.
  split; [done |]. split; [by rewrite lookup_insert_eq |].
  split; [| done].
  intros other Hne. rewrite lookup_insert_ne by done.
  destruct (check_output_result Dev surface
              (split ("sudo wg show " +:+ wg_interface +:+ " peers")) None w)
    as (code & out & d & Hs & Hc).
  fold (show_call wg_interface) in Hs.
  rewrite (list_peers_result Dev surface _ _ _ _ _ Hs) in Hl.
  by simplify_eq.
Qed.

(** X3.  A failing [save_peers] never touches a file other than the
    destination.  When the query or the parse fails, or the destination
    cannot be opened, every file is as before.  The destination loses its
    previous content only when it was opened and the write then failed;
    the exception is then [OSError] on it. *)
Theorem save_peers_failure_effects (wg_interface filename : string)
    (w w' : World Dev) (e : exn) :
  save_peers wg_interface filename w = (inl e, w') →
  (∀ other, other ≠ filename → fs w' !! other = fs w !! other)
  ∧ (fs w' = fs w
     ∨ ∃ keys w1 rest,
         list_peers wg_interface w = (inr keys, w1)
         ∧ writable filename = false
         ∧ torn filename (Json.dumps keys) = Some rest
         ∧ e = OSError filename
         ∧ fs w' = <[filename := rest]> (fs w)).
Proof.
  rewrite save_peers_result.
  destruct (check_output_result Dev surface
              (split ("sudo wg show " +:+ wg_interface +:+ " peers")) None w)
    as (code & out & d & Hs & _).
  fold (show_call wg_interface) in Hs.
  rewrite (list_peers_result Dev surface _ _ _ _ _ Hs).
  destruct (if code =? 0 then parse_peers out else _) as [e'|keys].
  - intros [= _ <-]. split; [done | by left].
  - destruct (writable filename) eqn:Hw; [done |].
    destruct (torn filename (Json.dumps keys)) as [rest|] eqn:Ht.
    + intros [= <- <-]. cbn. split.
      * intros other Hne. by rewrite lookup_insert_ne.
      * right. by exists keys, (ran Dev (show_call wg_interface) d w), rest.
    + intros [= _ <-]. split; [done | by left].
Qed.

(** *** What [list_peers] does with the output *)

(** X4.  When the query exits with 0 and prints only white space (an
    interface without peers), or prints no tab at all (one key per
    line), [list_peers] raises [IndexError]. *)
Theorem list_peers_blank_or_tabless (wg_interface : string) (w : World Dev)
    (out : string) (d : Dev) :
  surface (show_call wg_interface) (fs w) (dev w) = (0, out, d) →
  strip out = EmptyString ∨ contains TAB out = false →
  list_peers wg_interface w
  = (inl IndexError, ran Dev (show_call wg_interface) d w).
Proof.
  intros Hs Hout. rewrite (list_peers_result Dev surface _ _ _ _ _ Hs).
  cbn. f_equal. unfold parse_peers.
  destruct Hout as [-> | Htab]; [reflexivity |].
  pose proof (split_on_nonempty LF (strip out)) as Hne.
  destruct (split_on LF (strip out)) as [|line rest] eqn:E; [done |].
  apply (second_fields_tabless (line :: rest) line); [by left |].
  destruct (contains TAB line) eqn:Hl; [| done].
  assert (contains TAB out = true) as Hc; [| congruence].
  apply contains_strip, (contains_split_on TAB LF _ line); [| done].
  rewrite E. by left.
Qed.

(** X5.  What [list_peers] returns: if it returns a list, the query
    exited with 0, the list has one key for every line of the stripped
    output, and each key is the second tab-separated field of its line,
    in the order of the lines. *)
Theorem list_peers_sound (wg_interface : string) (w w' : World Dev)
    (keys : list string) :
  list_peers wg_interface w = (inr keys, w') →
  ∃ out d,
    surface (show_call wg_interface) (fs w) (dev w) = (0, out, d)
    ∧ w' = ran Dev (show_call wg_interface) d w
    ∧ length keys = length (split_on LF (strip out))
    ∧ ∀ n line, split_on LF (strip out) !! n = Some line →
        keys !! n = split_on TAB line !! 1%nat.
Proof.
  destruct (check_output_result Dev surface
              (split ("sudo wg show " +:+ wg_interface +:+ " peers")) None w)
    as (code & out & d & Hs & _).
  fold (show_call wg_interface) in Hs.
  rewrite (list_peers_result Dev surface _ _ _ _ _ Hs).
  destruct (code =? 0) eqn:Hc; [| done].
  apply Z.eqb_eq in Hc as ->.
  intros [= Hp <-]. exists out, d. split; [done |]. split; [done |].
  apply second_fields_ok in Hp. split.
  - symmetry. by eapply Forall2_length.
  - intros n line Hn.
    destruct (Forall2_lookup_l _ _ _ _ _ Hp Hn) as (key & -> & Hk). done.
Qed.

(** X6.  [list_peers] starts exactly one process, the query, and touches
    nothing else: no file, no mail, no QR symbol; and when the query
    exits with another status than 0 it raises [CalledProcessError] with
    that status without looking at the output. *)
Theorem list_peers_effects (wg_interface : string) (w : World Dev) :
  let out := list_peers wg_interface w in
  spawned out.2 = (spawned w ++ [show_call wg_interface])%list
  ∧ fs out.2 = fs w ∧ mail out.2 = mail w ∧ encoded out.2 = encoded w
  ∧ ∀ code text d,
      surface (show_call wg_interface) (fs w) (dev w) = (code, text, d) →
      code ≠ 0 →
      out.1 = inl (CalledProcessError code (argv (show_call wg_interface))).
Proof.
  destruct (check_output_result Dev surface
              (split ("sudo wg show " +:+ wg_interface +:+ " peers")) None w)
    as (code & out & d & Hs & _).
  fold (show_call wg_interface) in Hs. cbn zeta.
  rewrite (list_peers_result Dev surface _ _ _ _ _ Hs).
  unfold ran. cbn [fst snd spawned fs mail encoded].
  split; [reflexivity |]. split; [reflexivity |].
  split; [reflexivity |]. split; [reflexivity |].
  intros code' text d' Heq Hne. rewrite Hs in Heq.
  assert (code' = code) as -> by congruence.
  apply Z.eqb_neq in Hne. rewrite Hne. reflexivity.
Qed.

Lemma split_on_field_free (sep : ascii) (s field : string) :
  field ∈ split_on sep s → contains sep field = false.
Proof.
  revert field. induction s as [|x s IH]; intros field; cbn.
  - by intros ->%list_elem_of_singleton.
  - destruct (Ascii.eqb x sep) eqn:Hx.
    + intros [->|Hin]%elem_of_cons; [done | by apply IH].
    + pose proof (split_on_nonempty sep s) as Hne.
      destruct (split_on sep s) as [|h t] eqn:E; [done |].
      intros [->|Hin]%elem_of_cons.
      * cbn. rewrite Hx. apply IH. by left.
      * apply IH. by right.
Qed.

(** X18.  The keys that [list_peers] returns hold neither a tab nor a
    line feed. *)
Theorem list_peers_keys_clean (wg_interface : string) (w w' : World Dev)
    (keys : list string) (key : string) :
  list_peers wg_interface w = (inr keys, w') →
  key ∈ keys →
  contains TAB key = false ∧ contains LF key = false.
Proof.
  destruct (check_output_result Dev surface
              (split ("sudo wg show " +:+ wg_interface +:+ " peers")) None w)
    as (code & out & d & Hs & _).
  fold (show_call wg_interface) in Hs.
  rewrite (list_peers_result Dev surface _ _ _ _ _ Hs).
  destruct (code =? 0); [| done].
  intros [= Hp _] Hin. apply second_fields_ok in Hp.
  apply list_elem_of_lookup in Hin as [n Hn].
  destruct (Forall2_lookup_r _ _ _ _ _ Hp Hn) as (line & Hline & Hkey).
  assert (key ∈ split_on TAB line) as Hfield.
  { apply list_elem_of_lookup. eauto. }
  split; [by eapply split_on_field_free |].
  destruct (contains LF key) eqn:Hlf; [| done].
  assert (contains LF line = true) as Hc.
  { by eapply contains_split_on. }
  assert (contains LF line = false); [| congruence].
  eapply split_on_field_free, list_elem_of_lookup. eauto.
Qed.

(** *** The command lines, for arbitrary arguments *)

(** X7.  The argument vector of [remove_peer]: the fixed words with the
    words of the interface name and of the public key spliced in.  An
    argument with white space inside becomes several arguments, an empty
    one none; every argument passed is a non-empty word. *)
Theorem remove_peer_argv_spliced (pubkey wg_interface : string) :
  argv (remove_call pubkey wg_interface)
  = (["sudo"; "wg"; "set"] ++ split wg_interface ++ ["peer"]
     ++ split pubkey ++ ["remove"])%list
  ∧ Forall (λ a, word a = true) (argv (remove_call pubkey wg_interface)).
Proof.
  split; [| apply split_words].
  unfold remove_call, remove_peer_cmd. cbn [argv].
  change ("sudo wg set " +:+ wg_interface +:+ " peer " +:+ pubkey +:+ " remove")
    with ("sudo wg set" +:+ String " " (wg_interface +:+ String " "
            ("peer" +:+ String " " (pubkey +:+ String " " "remove")))).
  rewrite !split_app_space by reflexivity. reflexivity.
Qed.

(** X8.  The argument vector of the authorization of [add_peer], in the
    same way: the words of the interface, of the public key, of the
    address followed by /24, and of the key-file path are spliced into
    the fixed words. *)
Theorem set_peer_argv_spliced
    (ip_address private_key_file wg_interface pubkey : string) :
  split (set_peer_cmd ip_address private_key_file wg_interface pubkey)
  = (["sudo"; "wg"; "set"] ++ split wg_interface ++ ["peer"]
     ++ split pubkey ++ ["allowed-ips"] ++ split (ip_address +:+ "/24")
     ++ ["--private-key"] ++ split private_key_file)%list.
Proof.
  unfold set_peer_cmd. rewrite !append_assoc.
  change ("sudo wg set " +:+ wg_interface +:+ " peer " +:+ pubkey
          +:+ " allowed-ips " +:+ ip_address +:+ "/24"
          +:+ " --private-key " +:+ private_key_file)
    with ("sudo wg set" +:+ String " " (wg_interface +:+ String " "
            ("peer" +:+ String " " (pubkey +:+ String " "
               ("allowed-ips" +:+ String " " (ip_address +:+ "/24"
                  +:+ String " " ("--private-key" +:+ String " "
                        private_key_file))))))).
  rewrite 4 split_app_space by reflexivity.
  rewrite <- (append_assoc ip_address "/24").
  rewrite !split_app_space by reflexivity. reflexivity.
Qed.

(** *** Key material *)


(** X10.  A generated key is found again: after a key step that
    generated a pair and stored the private key, a later key step on the
    same file with any non-empty public key returns that same private
    key, provided the key file can be read, the locale decodes the stored
    key to itself (as it does for ASCII) and the key holds no carriage
    return. *)
Theorem generated_key_is_reused (private_key_file : string)
    (pubkey : option string) (later : string)
    (privkey pk : string) (w w1 : World Dev) :
  truthy pubkey = false →
  provision private_key_file pubkey w = (inr (privkey, pk), w1) →
  readable private_key_file = true →
  decode privkey = Some privkey →
  contains CR privkey = false →
  later ≠ EmptyString →
  provision private_key_file (Some later) w1 = (inr (privkey, later), w1).
Proof.
  intros Hpk Hp Hr Hd Hcr Hl.
  assert (fs w1 !! private_key_file = Some privkey
          ∧ strip privkey = privkey) as [Hf Hs].
  { revert Hp. unfold_provision. unfold write_file. rewrite Hpk. cbn [negb].
    unfold_monad.
    destruct (check_output_result Dev surface ["wg"; "genkey"] None w)
      as (c1 & o1 & d1 & _ & ->).
    destruct (c1 =? 0); [| done].
    destruct (check_output_result Dev surface ["wg"; "pubkey"]
                (Some (strip o1))
                (ran Dev {| argv := ["wg"; "genkey"]; input := None |} d1 w))
      as (c2 & o2 & d2 & _ & ->).
    destruct (c2 =? 0); [| done].
    destruct (writable private_key_file); [| by destruct (torn _ _)].
    intros [= <- _ <-]. cbn. split; [by rewrite lookup_insert_eq |].
    apply strip_idem. }
  rewrite (provision_reuse_result Dev surface writable torn readable decode)
    by done.
  rewrite Hf, Hr, Hd. by rewrite universal_newlines_no_cr, Hs.
Qed.

(** *** [add_peer] from end to end *)

(** X12.  Reusing a key without a recipient: for a public key, an
    interface and a key-file path that are single words, an address free
    of white space and a key file that exists, can be read and holds
    bytes that the locale decodes to [text], when [wg set] exits with 0,
    [add_peer] has started that one process (the address under /24),
    changed no file, and given the QR encoder the four-line text with
    [text], line ends normalised and stripped, as private key. *)
Theorem add_peer_reuse_key
    (ip_address private_key_file wg_interface pk b text : string)
    (output_dir : option string) (w : World Dev) (out3 : string) (d3 : Dev) :
  let set := {| argv := ["sudo"; "wg"; "set"; wg_interface; "peer"; pk;
                         "allowed-ips"; ip_address +:+ "/24";
                         "--private-key"; private_key_file];
                input := None |} in
  word pk = true → word wg_interface = true →
  word private_key_file = true → spaceless ip_address = true →
  fs w !! private_key_file = Some b →
  readable private_key_file = true →
  decode b = Some text →
  surface set (fs w) (dev w) = (0, out3, d3) →
  let out := add_peer ip_address private_key_file wg_interface (Some pk)
               output_dir None w in
  fs out.2 = fs w
  ∧ dev out.2 = d3
  ∧ spawned out.2 = (spawned w ++ [set])%list
  ∧ encoded out.2
    = (encoded w
       ++ [qr_data_local wg_interface (strip (universal_newlines false text))
             pk ip_address])%list.
Proof.
  intros set Hpk Hi Hr Ha Hb Hread Hdec Hs out. subst out.
  rewrite add_peer_steps.
  assert (provision private_key_file (Some pk) w
          = (inr (strip (universal_newlines false text), pk), w)) as ->.
  { rewrite (provision_reuse_result Dev surface writable torn readable decode).
    - by rewrite Hb, Hread, Hdec.
    - by destruct pk. }
  rewrite (authorize_result Dev surface ip_address private_key_file
             wg_interface pk w 0 out3 d3) by done.
  cbn [Z.eqb]. rewrite export_steps. cbn [truthy].
  by destruct (qr_png _).
Qed.


(** *** The delivery *)

(** X14.  A delivery that returns normally: the text was encoded, the PNG
    is stored under the image file name, where it stays, and one full
    SMTP session was made whose message has the text as body and that
    same PNG as image. *)
Theorem deliver_success (qr_data pubkey : string) (output_dir : option string)
    (email : string) (w w' : World Dev) :
  deliver qr_data pubkey output_dir email w = (inr tt, w') →
  ∃ png,
    qr_png qr_data = Some png
    ∧ fs w' = <[image_filename output_dir pubkey := png]> (fs w)
    ∧ encoded w' = (encoded w ++ [qr_data])%list
    ∧ mail w'
      = (mail w ++ full_session email (mail_message email qr_data png))%list.
Proof.
  unfold_deliver. unfold with_smtp, smtp_do, qr_make, write_file, read_bytes.
  unfold_monad. cbn zeta.
  destruct (qr_png qr_data) as [png|]; cbn; [| done].
  destruct (writable _); cbn; [| by destruct (torn _ _)].
  rewrite lookup_insert_eq. cbn.
  destruct (readable _); cbn; [| done].
  repeat (match goal with
          | |- context [if smtp_accepts ?h ?op then _ else _] =>
              destruct (smtp_accepts h op)
          end; cbn); try done.
  intros [= <-]. exists png. cbn. rewrite <- !app_assoc. done.
Qed.

(** X15.  No mail before the login: whatever the server answers, a
    [SendMail] is attempted only when the connection, EHLO, STARTTLS and
    the login were each accepted, in that order. *)
Theorem mail_only_after_login (qr_data pubkey : string)
    (output_dir : option string) (email : string) (w : World Dev)
    (ops : list SmtpOp) (from_addr to_addr : string) (msg : Message) :
  mail (deliver qr_data pubkey output_dir email w).2 = (mail w ++ ops)%list →
  SendMail from_addr to_addr msg ∈ ops →
  let connect := Connect "smtp.gmail.com" 587 in
  let login := Login "your_email@example.com" "your_email_password" in
  smtp_accepts (mail w) connect = true
  ∧ smtp_accepts (mail w ++ [connect]) Ehlo = true
  ∧ smtp_accepts (mail w ++ [connect; Ehlo]) StartTls = true
  ∧ smtp_accepts (mail w ++ [connect; Ehlo; StartTls]) login = true.
Proof.
  unfold_deliver. unfold with_smtp, smtp_do, qr_make, write_file, read_bytes.
  unfold_monad. cbn zeta.
  destruct (qr_png qr_data) as [png|]; cbn.
  2: { rewrite <- (app_nil_r (mail w)) at 1. intros <-%app_inv_head.
       by intros ?%elem_of_nil. }
  destruct (writable _); cbn.
  2: { destruct (torn _ _); cbn; rewrite <- (app_nil_r (mail w)) at 1;
       intros <-%app_inv_head; by intros ?%elem_of_nil. }
  rewrite lookup_insert_eq. cbn.
  destruct (readable _); cbn.
  2: { rewrite <- (app_nil_r (mail w)) at 1. intros <-%app_inv_head.
       by intros ?%elem_of_nil. }
  destruct (smtp_accepts (mail w) _) eqn:H1; cbn.
  2: { intros <-%app_inv_head. intros Hin.
       apply list_elem_of_singleton in Hin. done. }
  destruct (smtp_accepts (mail w ++ [_]) Ehlo) eqn:H2; cbn.
  2: { destruct (smtp_accepts _ Quit); cbn; rewrite <- !app_assoc;
       intros <-%app_inv_head; cbn; intros Hin;
       repeat (apply elem_of_cons in Hin as [Hin|Hin]; [done |]);
       by apply elem_of_nil in Hin. }
  destruct (smtp_accepts ((mail w ++ [_]) ++ [Ehlo]) StartTls) eqn:H3; cbn.
  2: { destruct (smtp_accepts _ Quit); cbn; rewrite <- !app_assoc;
       intros <-%app_inv_head; cbn; intros Hin;
       repeat (apply elem_of_cons in Hin as [Hin|Hin]; [done |]);
       by apply elem_of_nil in Hin. }
  destruct (smtp_accepts (((mail w ++ [_]) ++ [Ehlo]) ++ [StartTls]) _)
    eqn:H4; cbn.
  2: { destruct (smtp_accepts _ Quit); cbn; rewrite <- !app_assoc;
       intros <-%app_inv_head; cbn; intros Hin;
       repeat (apply elem_of_cons in Hin as [Hin|Hin]; [done |]);
       by apply elem_of_nil in Hin. }
  intros _ _. cbn zeta. rewrite <- !app_assoc in H3, H4.
  simpl in H3, H4. repeat (rewrite <- app_assoc in H4; simpl in H4).
  repeat split; first [assumption | reflexivity].
Qed.

(** X19.  No connection without the image: when the text does not fit a
    QR symbol, or the image file cannot be written, the delivery raises
    [DataOverflowError] or [OSError] on the file name, and no SMTP
    operation has been attempted. *)
Theorem no_mail_without_image (qr_data pubkey : string)
    (output_dir : option string) (email : string) (w : World Dev) :
  qr_png qr_data = None ∨ writable (image_filename output_dir pubkey) = false →
  let out := deliver qr_data pubkey output_dir email w in
  mail out.2 = mail w
  ∧ (out.1 = inl DataOverflowError
     ∨ out.1 = inl (OSError (image_filename output_dir pubkey))).
Proof.
  intros H. cbn zeta.
  unfold_deliver. unfold with_smtp, smtp_do, qr_make, write_file, read_bytes.
  unfold_monad.
  destruct (qr_png qr_data) as [png|]; cbn; [| by split; [| left]].
  destruct H as [H|H]; [done |]. rewrite H.
  destruct (torn _ _); cbn; by split; [| right].
Qed.

(** X16.  Without a recipient the export writes no file and attempts no
    SMTP operation; it ends normally exactly when the text fits a QR
    symbol, and otherwise raises [DataOverflowError]. *)
Theorem export_local_effects (wg_interface privkey pubkey ip_address : string)
    (output_dir email : option string) (w : World Dev) :
  truthy email = false →
  let out := export wg_interface privkey pubkey ip_address output_dir email w in
  fs out.2 = fs w ∧ mail out.2 = mail w
  ∧ (out.1 = inr tt
     ↔ is_Some (qr_png (qr_data_local wg_interface privkey pubkey ip_address)))
  ∧ (out.1 ≠ inr tt → out.1 = inl DataOverflowError).
Proof.
  intros He. cbn zeta. rewrite export_steps, He.
  destruct (qr_png _) as [png|]; cbn; repeat split; try done.
Qed.

(** *** The [remove] command *)

(** X17.  The [remove] command starts exactly one process and touches no
    file; it returns normally exactly when that process exits with 0,
    and otherwise raises [CalledProcessError] with its status; either
    way the device is left as the process left it. *)
Theorem main_remove_effects (pubkey wg_interface : string) (w : World Dev)
    (code : Z) (text : string) (d : Dev) :
  surface (remove_call pubkey wg_interface) (fs w) (dev w) = (code, text, d) →
  let out := main Dev surface writable torn readable decode qr_png smtp_accepts
               (NsRemove pubkey wg_interface) w in
  spawned out.2 = (spawned w ++ [remove_call pubkey wg_interface])%list
  ∧ fs out.2 = fs w ∧ dev out.2 = d
  ∧ (out.1 = inr tt ↔ code = 0)
  ∧ (code ≠ 0 →
     out.1 = inl (CalledProcessError code
                    (argv (remove_call pubkey wg_interface)))).
Proof.
  intros Hs. cbn zeta. cbn [main].
  rewrite (remove_peer_result Dev surface _ _ _ _ _ _ Hs).
  unfold ran. cbn [fst snd spawned fs dev].
  split; [reflexivity |]. split; [reflexivity |]. split; [reflexivity |].
  destruct (code =? 0) eqn:Hc.
  - apply Z.eqb_eq in Hc. done.
  - apply Z.eqb_neq in Hc. split; [| done]. split; [done | congruence].
Qed.

End Coverage.

(** ** The further properties on the reference environment *)

Section CoverageInstances.

Local Abbreviation run_provision :=
  (provision Ref.Dev Ref.surface Ref.writable Ref.torn Ref.readable Ref.decode).
Local Abbreviation run_deliver :=
  (deliver Ref.Dev Ref.writable Ref.torn Ref.readable Ref.qr_png Ref.smtp_up).
Local Abbreviation run_add :=
  (add_peer Ref.Dev Ref.surface Ref.writable Ref.torn Ref.readable Ref.decode
     Ref.qr_png Ref.smtp_up).
Local Abbreviation run_save :=
  (save_peers Ref.Dev Ref.surface Ref.writable Ref.torn).

Lemma json_round_trip_witness :
  Json.loads (Json.dumps ["A="; "B="]) = Some ["A="; "B="].
Proof. apply (json_round_trip ["A="; "B="] []). Defined.

Lemma save_peers_snapshot_witness :
  ∃ keys,
    fs (run_save "wg0" "/tmp/peers.json" two_peers_saved).2
    !! "/tmp/peers.json"
    = Some (Json.dumps keys).
Proof.
  destruct (save_peers_snapshot Ref.Dev Ref.surface Ref.writable Ref.torn
              "wg0" "/tmp/peers.json" two_peers_saved
              (run_save "wg0" "/tmp/peers.json" two_peers_saved).2)
    as (keys & w1 & _ & Hf & _).
  - vm_compute. reflexivity.
  - exists keys. exact Hf.
Defined.

(** On a full disk the snapshot file is opened and the write fails: the
    other files are as before. *)
Lemma save_peers_failure_effects_witness :
  fs (save_peers Ref.Dev Ref.surface Ref.full_disk Ref.emptied "wg0"
        "/tmp/peers.json" snapshot_and_key).2 !! "/tmp/peerA.key"
  = fs snapshot_and_key !! "/tmp/peerA.key".
Proof.
  refine (proj1 (save_peers_failure_effects Ref.Dev Ref.surface Ref.full_disk
                   Ref.emptied "wg0" "/tmp/peers.json" snapshot_and_key _
                   (OSError "/tmp/peers.json") _) "/tmp/peerA.key" _).
  - vm_compute. reflexivity.
  - discriminate.
Defined.

(** The snapshot that was there is lost on the full disk, and kept when
    the parse fails on the output of the real tool. *)
Example save_peers_on_full_disk :
  fs (save_peers Ref.Dev Ref.surface Ref.full_disk Ref.emptied "wg0"
        "/tmp/peers.json" two_peers_saved).2 !! "/tmp/peers.json"
  = Some EmptyString
  ∧ fs (save_peers Ref.Dev Ref.surface_plain Ref.writable Ref.torn "wg0"
          "/tmp/peers.json" two_peers_saved).2 !! "/tmp/peers.json"
    = Some "old".
Proof. vm_compute. split; reflexivity. Qed.

(** An interface without peers. *)
Lemma list_peers_blank_or_tabless_witness :
  (list_peers Ref.Dev Ref.surface "wg0" no_peers).1 = inl IndexError.
Proof.
  rewrite (list_peers_blank_or_tabless Ref.Dev Ref.surface "wg0" no_peers
             EmptyString (Ref.wg0 [] []) eq_refl (or_introl eq_refl)).
  reflexivity.
Defined.

Lemma list_peers_sound_witness :
  ∃ out,
    length ["A="; "B="] = length (split_on LF (strip out))
    ∧ split_on LF (strip out) !! 1%nat = Some ("wg0" +:+ String TAB "B=").
Proof.
  destruct (list_peers_sound Ref.Dev Ref.surface "wg0" two_peers
              (list_peers Ref.Dev Ref.surface "wg0" two_peers).2
              ["A="; "B="])
    as (out & d & Hs & _ & Hlen & _).
  - vm_compute. reflexivity.
  - exists out. split; [exact Hlen |].
    vm_compute in Hs. injection Hs as <- _. vm_compute. reflexivity.
Defined.

Lemma list_peers_effects_witness :
  spawned (list_peers Ref.Dev Ref.surface "wg0" two_peers).2
  = [show_call "wg0"].
Proof.
  apply (list_peers_effects Ref.Dev Ref.surface "wg0" two_peers).
Defined.


Lemma generated_key_is_reused_witness :
  (run_provision "/tmp/peerA.key" (Some "pub-PRIV")
     (run_provision "/tmp/peerA.key" None fresh).2).1
  = inr ("PRIV", "pub-PRIV").
Proof.
  rewrite (generated_key_is_reused Ref.Dev Ref.surface Ref.writable
             Ref.torn Ref.readable Ref.decode
             "/tmp/peerA.key" None "pub-PRIV" "PRIV" "pub-PRIV" fresh
             (run_provision "/tmp/peerA.key" None fresh).2).
  - reflexivity.
  - reflexivity.
  - vm_compute. reflexivity.
  - reflexivity.
  - reflexivity.
  - reflexivity.
  - discriminate.
Defined.


Lemma add_peer_reuse_key_witness :
  spawned (run_add "10.0.0.5" "/tmp/peerA.key" "wg0" (Some "PUB") None None
             with_key_file).2
  = [{| argv := ["sudo"; "wg"; "set"; "wg0"; "peer"; "PUB"; "allowed-ips";
                 "10.0.0.5/24"; "--private-key"; "/tmp/peerA.key"];
        input := None |}].
Proof.
  apply (add_peer_reuse_key Ref.Dev Ref.surface Ref.writable Ref.torn
           Ref.readable Ref.decode Ref.qr_png
           Ref.smtp_up "10.0.0.5" "/tmp/peerA.key" "wg0" "PUB" ("PRIV" +:+ nl)
           ("PRIV" +:+ nl)
           None with_key_file EmptyString (Ref.wg0 ["PUB"] []));
    reflexivity.
Defined.


Lemma deliver_success_witness :
  ∃ png,
    fs (run_deliver scenario_text "pub-PRIV" None "peer@example.org" fresh).2
    = <[ "wg_client_pub-PRIV.png" := png ]> (fs fresh).
Proof.
  destruct (deliver_success Ref.Dev Ref.writable Ref.torn Ref.readable
              Ref.qr_png Ref.smtp_up
              scenario_text "pub-PRIV" None "peer@example.org" fresh
              (run_deliver scenario_text "pub-PRIV" None "peer@example.org"
                 fresh).2)
    as (png & _ & Hf & _).
  - vm_compute. reflexivity.
  - exists png. exact Hf.
Defined.

Lemma mail_only_after_login_witness :
  Ref.smtp_up [Connect "smtp.gmail.com" 587; Ehlo; StartTls]
    (Login "your_email@example.com" "your_email_password") = true.
Proof.
  apply (mail_only_after_login Ref.Dev Ref.writable Ref.torn Ref.readable
           Ref.qr_png Ref.smtp_up
           scenario_text "pub-PRIV" None "peer@example.org" fresh
           (full_session "peer@example.org"
              (mail_message "peer@example.org" scenario_text
                 ("PNG " +:+ scenario_text)))
           "your_email@example.com" "peer@example.org"
           (mail_message "peer@example.org" scenario_text
              ("PNG " +:+ scenario_text))).
  - vm_compute. reflexivity.
  - unfold full_session. do 4 apply list_elem_of_further.
    apply list_elem_of_here.
Defined.

(** A text too long for the largest symbol of the reference encoder. *)
Lemma no_mail_without_image_witness :
  mail (run_deliver long_text "pub-PRIV" None "peer@example.org" fresh).2
  = mail fresh.
Proof.
  apply (no_mail_without_image Ref.Dev Ref.writable Ref.torn Ref.readable
           Ref.qr_png Ref.smtp_up
           long_text "pub-PRIV" None "peer@example.org" fresh).
  left. vm_compute. reflexivity.
Defined.

Lemma list_peers_keys_clean_witness :
  contains TAB "B=" = false ∧ contains LF "B=" = false.
Proof.
  apply (list_peers_keys_clean Ref.Dev Ref.surface "wg0" two_peers
           (list_peers Ref.Dev Ref.surface "wg0" two_peers).2 ["A="; "B="]).
  - vm_compute. reflexivity.
  - apply list_elem_of_further, list_elem_of_here.
Defined.

Lemma export_local_effects_witness :
  fs (export Ref.Dev Ref.writable Ref.torn Ref.readable Ref.qr_png
        Ref.smtp_up "wg0" "PRIV" "pub-PRIV" "10.0.0.5" None None fresh).2
  = fs fresh.
Proof.
  apply (export_local_effects Ref.Dev Ref.writable Ref.torn Ref.readable
           Ref.qr_png Ref.smtp_up
           "wg0" "PRIV" "pub-PRIV" "10.0.0.5" None None fresh).
  reflexivity.
Defined.

Lemma main_remove_effects_witness :
  dev (main Ref.Dev Ref.surface Ref.writable Ref.torn Ref.readable Ref.decode
         Ref.qr_png Ref.smtp_up (NsRemove "A=" "wg0") two_peers).2
  = Ref.wg0 ["B="] [].
Proof.
  apply (main_remove_effects Ref.Dev Ref.surface Ref.writable Ref.torn
           Ref.readable Ref.decode Ref.qr_png
           Ref.smtp_up "A=" "wg0" two_peers 0 EmptyString (Ref.wg0 ["B="] [])).
  reflexivity.
Defined.

End CoverageInstances.
